(** * tasks.py: the KiCad release automation of RPi_Pico_SAO_Host

    A shallow embedding of [tasks.py].  The script is imperative Python: it
    prints to the console, starts [kicad-cli] subprocesses through invoke's
    [context.run], deletes and writes files, and signals failure with
    exceptions.  The embedding threads an explicit world (the file system and
    the console/subprocess log) through a small state-and-exception monad.

    What the script gets from outside (the [kicad-cli] program, svglib,
    reportlab, fitz, the generator behind [Path.glob], the
    arithmetic of the numbers a drawing carries) is collected in the class
    [Env]; every definition and theorem is parametric in it.

    Modelling conventions.
    - A [pathlib.Path] is the list of its components below one fixed anchor;
      the anchor itself is the empty list and always exists as a directory.
      The anchor is both the working directory and the root of the modelled
      tree, so it is its own parent.  The file system maps the path of every
      entry, as it is reached from the anchor without links and without [..],
      to what is there.  [lstat] and the operations built on it look an entry
      up by the path that names it; [resolve] is the one place where links
      and [..] in a path are worked out.  A path that [lexical] accepts names
      its entry the way the file system stores it, so the lookup finds what
      the operating system finds.  A link stores the path, from the anchor,
      that its text denotes.  Access rights and concurrent changes of the
      file system are not modelled.
    - [context.run] raises [UnexpectedExit] exactly when the exit status is not
      0 (invoke's default, [warn=False]). *)

From Stdlib Require Import ZArith String Ascii DecimalString SpecFloat Reals Lra.
From stdpp Require Import gmap strings list fin_maps.

Local Open Scope Z_scope.
Local Open Scope string_scope.
Local Open Scope list_scope.

(** ** Python strings *)

Definition dq : string := String "034"%char "".
Definition nl : string := String "010"%char "".

(** [" ".join(parts)] *)
Definition join (sep : string) (parts : list string) : string :=
  String.concat sep parts.

(** [f"{n}"] for an [int]. *)
Definition show_Z (z : Z) : string := NilZero.string_of_int (Z.to_int z).

Fixpoint rfind (c : ascii) (s : string) : option nat :=
  match s with
  | EmptyString => None
  | String a s' =>
      match rfind c s' with
      | Some i => Some (S i)
      | None => if Ascii.eqb a c then Some 0%nat else None
      end
  end.

(** [s.split(c)] *)
Fixpoint split_on (c : ascii) (s : string) : list string :=
  match s with
  | EmptyString => [EmptyString]
  | String a s' =>
      if Ascii.eqb a c then EmptyString :: split_on c s'
      else match split_on c s' with
           | [] => [String a EmptyString]
           | w :: ws => String a w :: ws
           end
  end.

(** ** pathlib *)

Definition path : Type := list string.

Definition keep_part (c : string) : bool :=
  negb (String.eqb c "") && negb (String.eqb c ".").

(** [Path(s)]: empty components and [.] components are dropped. *)
Definition Path (s : string) : path := List.filter keep_part (split_on "/"%char s).

(** [str(p)] *)
Definition str (p : path) : string :=
  match p with
  | [] => "."
  | _ => join "/" p
  end.

(** [p.name]: the final component, [''] for the anchor. *)
Definition name (p : path) : string := List.last p "".

(** [p.parent] *)
Definition parent (p : path) : path := List.removelast p.

(** [a / b] for a relative [b]. *)
Definition joinpath (a b : path) : path := a ++ b.

Infix "</>" := joinpath (at level 40, left associativity).

(** [(stem, suffix)] of a file name: the split at the last dot, when that dot
    is neither the first nor the last character. *)
Definition stem_suffix (n : string) : string * string :=
  match rfind "."%char n with
  | Some i =>
      if (0 <? i)%nat && (i <? String.length n - 1)%nat
      then (substring 0 i n, substring i (String.length n - i) n)
      else (n, "")
  | None => (n, "")
  end.

Definition stem (p : path) : string := fst (stem_suffix (name p)).

(** [p.with_name(n)] *)
Definition with_name (p : path) (n : string) : path := parent p ++ [n].

(** [p.with_suffix(sfx)] *)
Definition with_suffix (p : path) (sfx : string) : path :=
  with_name p (stem p +:+ sfx).

(** ** Exceptions, console and subprocess log, file system *)

Inductive exn : Type :=
  | UnexpectedExit (exited : Z)
  | ValueError (msg : string)
  | ZeroDivisionError
  | FileNotFoundError (p : path)
  | IsADirectoryError (msg : string)
  | NotADirectoryError (p : path)
  | FileExistsError (p : path)
  | OSError (msg : string)
  | RuntimeError (msg : string).

Inductive event : Type :=
  | Print (line : string)            (* print(line) *)
  | Run (cmd : string)               (* context.run(cmd, echo=True) *)
  | Svg2rlg (svg : path)             (* svglib.svg2rlg *)
  | DrawToString                     (* renderPDF.drawToString *)
  | GetPixmap (alpha : bool) (dpi : option Z)   (* fitz: open, load page 0, rasterise *)
  | Save (png : path).               (* pixmap.save *)

Inductive node : Type :=
  | File (content : string)
  | Dir
  | Symlink (target : path)
  | Other.                           (* socket, fifo, device *)

Record World : Type := mkWorld {
  fs : gmap path node;
  out : list event
}.

Inductive result (A : Type) : Type :=
  | Ok (a : A)
  | Raise (e : exn).
Arguments Ok {A} a.
Arguments Raise {A} e.

(** A generator of paths, as [Path.glob] returns one: it is finished, it
    raises, or it yields a path and goes on when asked for the next one, in
    the file system of that moment. *)
Inductive gen : Type :=
  | Done
  | Fail (e : exn)
  | Yield (p : path) (next : gmap path node → gen).

(** [iter(ps)] for a list. *)
Fixpoint gen_of_list (ps : list path) : gen :=
  match ps with
  | [] => Done
  | p :: ps' => Yield p (λ _, gen_of_list ps')
  end.

(** ** The numbers of a drawing *)

(** Python numbers are duck-typed: the scaling step of [svg_to_png] only uses
    [max], [/] and [*].  [div] is [None] where Python raises
    [ZeroDivisionError]. *)
Class Number (N : Type) : Type := {
  of_Z : Z → N;
  gt : N → N → bool;
  mul : N → N → N;
  div : N → N → option N
}.

(** [max(a, b)]: the first argument unless the second is strictly greater. *)
Definition pymax {N} `{Number N} (a b : N) : N := if gt b a then b else a.

(** [float]: IEEE 754 binary64, round to nearest even. *)
Definition float : Type := spec_float.

Definition f64_is_zero (x : float) : bool :=
  match x with S754_zero _ => true | _ => false end.

#[export] Instance Number_float : Number float := {
  of_Z := λ z, binary_normalize 53 1024 z 0 false;
  gt := λ a b, SFltb b a;
  mul := SFmul 53 1024;
  div := λ a b, if f64_is_zero b then None else Some (SFdiv 53 1024 a b)
}.

Record Drawing (N : Type) : Type := mkDrawing {
  width : N;
  height : N;
  renderScale : N
}.
Arguments mkDrawing {N}.
Arguments width {N}.
Arguments height {N}.
Arguments renderScale {N}.

(** ** The environment of the script *)

Class Env : Type := {
  (** the result of [get_kicad_cli_path()] *)
  KICAD_CLI : string;
  (** the [kicad-cli] program: what a command does to the file system, and
      its exit status *)
  kicad : string → gmap path node → gmap path node * Z;
  (** [Path.glob] once the pattern is known not to be empty: the generator
      that [dir.glob(pattern)] is when iteration starts in a file system *)
  glob_select : gmap path node → path → string → gen;
  (** the number type of drawings *)
  num : Type;
  num_ops :: Number num;
  (** [svglib.svg2rlg]: [None] when the file cannot be turned into a drawing *)
  svg2rlg : gmap path node → path → option (Drawing num);
  (** [renderPDF.drawToString] *)
  drawToString : Drawing num → string;
  (** fitz: the first page of the document, rasterised *)
  get_pixmap : string → bool → option Z → string
}.

(** ** The monad *)

Definition M (A : Type) : Type := World → result A * World.

Definition ret {A} (a : A) : M A := λ w, (Ok a, w).

Definition bind {A B} (m : M A) (k : A → M B) : M B :=
  λ w, match m w with
       | (Ok a, w') => k a w'
       | (Raise e, w') => (Raise e, w')
       end.

Definition raise {A} (e : exn) : M A := λ w, (Raise e, w).

(** [try: body except Exception as e: handler(e)] *)
Definition try_except {A} (body : M A) (handler : exn → M A) : M A :=
  λ w, match body w with
       | (Ok a, w') => (Ok a, w')
       | (Raise e, w') => handler e w'
       end.

Notation "'do' x <- m ; k" := (bind m (λ x, k))
  (at level 10, x name, m at level 100, k at level 200).
Notation "m ;; k" := (bind m (λ _, k))
  (at level 100, right associativity).

(** [for x in xs: body(x)] *)
Fixpoint for_ {A} (xs : list A) (body : A → M unit) : M unit :=
  match xs with
  | [] => ret tt
  | x :: xs' => body x ;; for_ xs' body
  end.

(** [for p in paths: body(p)] for a generator: the next path is asked for
    after the body has run, in the file system the body left. *)
Fixpoint for_gen (paths : gen) (body : path → M unit) : M unit :=
  match paths with
  | Done => ret tt
  | Fail e => raise e
  | Yield p next =>
      λ w, match body p w with
           | (Ok _, w') => for_gen (next (fs w')) body w'
           | (Raise e, w') => (Raise e, w')
           end
  end.

Definition log (e : event) : M unit :=
  λ w, (Ok tt, mkWorld (fs w) (out w ++ [e])).

Definition print (line : string) : M unit := log (Print line).

Definition get_fs : M (gmap path node) := λ w, (Ok (fs w), w).

Definition put_fs (f : gmap path node) : M unit :=
  λ w, (Ok tt, mkWorld f (out w)).

(** ** File system primitives *)

(** [os.lstat]: the entry a path names, without following a final link. *)
Definition lstat (f : gmap path node) (p : path) : option node :=
  match p with
  | [] => Some Dir
  | _ => f !! p
  end.

(** [os.stat]: links are followed, at most [n] of them. *)
Fixpoint stat_fuel (n : nat) (f : gmap path node) (p : path) : option node :=
  match lstat f p with
  | Some (Symlink t) =>
      match n with
      | O => None
      | S n' => stat_fuel n' f t
      end
  | o => o
  end.

Definition stat : gmap path node → path → option node := stat_fuel 40.

Definition is_symlink (f : gmap path node) (p : path) : bool :=
  match lstat f p with Some (Symlink _) => true | _ => false end.

Definition is_file (f : gmap path node) (p : path) : bool :=
  match stat f p with Some (File _) => true | _ => false end.

Definition is_dir (f : gmap path node) (p : path) : bool :=
  match stat f p with Some Dir => true | _ => false end.

(** [p.unlink(missing_ok=...)] *)
Definition unlink (p : path) (missing_ok : bool) : M unit :=
  do f <- get_fs ;
  match lstat f p with
  | None => if missing_ok then ret tt else raise (FileNotFoundError p)
  | Some Dir => raise (IsADirectoryError (str p))
  | Some _ => put_fs (delete p f)
  end.

(** The entries that are neither [p] nor below it. *)
Definition without_tree (p : path) (f : gmap path node) : gmap path node :=
  filter (λ kv, ¬ (p `prefix_of` kv.1)) f.

(** [shutil.rmtree(p, ignore_errors=...)] *)
Definition rmtree (p : path) (ignore_errors : bool) : M unit :=
  do f <- get_fs ;
  match lstat f p with
  | Some Dir =>
      put_fs (without_tree p f) ;;
      match p with
      | [] => if ignore_errors then ret tt
              else raise (OSError "cannot remove the working directory")
      | _ => ret tt
      end
  | Some (Symlink _) =>
      if ignore_errors then ret tt
      else raise (OSError "Cannot call rmtree on a symbolic link")
  | Some _ => if ignore_errors then ret tt else raise (NotADirectoryError p)
  | None => if ignore_errors then ret tt else raise (FileNotFoundError p)
  end.

(** [dir.glob(pattern)], a generator: an empty pattern is rejected when the
    iteration starts. *)
Definition glob `{Env} (dir : path) (pattern : string) (f : gmap path node) : gen :=
  if String.eqb pattern "" then Fail (ValueError "Unacceptable pattern: ''")
  else glob_select f dir pattern.

(** ** [rm] *)

(** The body of the [try] statement of [rm], for one path. *)
Definition rm_entry (p : path) (recursive force : bool) : M unit :=
  do f <- get_fs ;
  if is_symlink f p || is_file f p then
    unlink p force
  else if is_dir f p then
    if recursive then rmtree p force
    else raise (IsADirectoryError
                  ("Cannot remove directory '" +:+ str p +:+ "' without recursive=True"))
  else
    if negb force then raise (OSError ("Unknown file type: '" +:+ str p +:+ "'"))
    else ret tt.

(** The [try] statement with its two handlers. *)
Definition rm_guarded (p : path) (recursive force : bool) : M unit :=
  try_except (rm_entry p recursive force)
    (λ e, match e with
          | FileNotFoundError _ => if negb force then raise e else ret tt
          | _ => if negb force then raise e else ret tt
          end).

Definition rm `{Env} (path_arg : string) (recursive force use_glob : bool) : M unit :=
  let p := Path path_arg in
  do f <- get_fs ;
  let paths := if use_glob then glob (parent p) (name p) f else gen_of_list [p] in
  for_gen paths (λ q, rm_guarded q recursive force).

(** ** [ensure_dir] *)

(** The ancestors of a path and the path itself, outermost first. *)
Definition prefixes (p : path) : list path :=
  map (λ n, take n p) (seq 1 (length p)).

(** [os.path.realpath] (not strict) of [rest] taken from the directory [cur]:
    [..] steps to the parent, a component that is a link is replaced by what
    the link denotes, a component that is missing is kept as it is.  [None]
    when more than [links] links are nested. *)
Fixpoint realpath (links : nat) (f : gmap path node) : path → list string → option path :=
  fix go (cur : path) (rest : list string) {struct rest} : option path :=
    match rest with
    | [] => Some cur
    | c :: rest' =>
        if String.eqb c ".." then go (parent cur) rest'
        else
          match f !! (cur ++ [c]) with
          | Some (Symlink t) =>
              match links with
              | O => None
              | S n =>
                  match realpath n f [] t with
                  | Some cur' => go cur' rest'
                  | None => None
                  end
              end
          | _ => go (cur ++ [c]) rest'
          end
    end.

(** [p.resolve()]: links nested deeper than there are entries form a loop,
    which makes [resolve] raise [RuntimeError]. *)
Definition resolve (f : gmap path node) (p : path) : option path :=
  realpath (size f) f [] p.

(** [os.mkdir(d)]: the entry must be free and every ancestor a directory.
    When an ancestor is not, the first such decides: a missing one gives
    [FileNotFoundError], anything else [NotADirectoryError]. *)
Definition os_mkdir (d : path) : M unit :=
  do f <- get_fs ;
  match lstat f d with
  | Some _ => raise (FileExistsError d)
  | None =>
      match list_find (λ a, is_dir f a = false) (prefixes (parent d)) with
      | None => put_fs (<[d := Dir]> f)
      | Some (_, a) =>
          match stat f a with
          | None => raise (FileNotFoundError d)
          | Some _ => raise (NotADirectoryError d)
          end
      end
  end.

(** [d.mkdir(parents=False, exist_ok=True)] *)
Definition mkdir_leaf (d : path) : M unit :=
  try_except (os_mkdir d)
    (λ e, match e with
          | FileNotFoundError _ => raise e
          | _ => do f <- get_fs ; if is_dir f d then ret tt else raise e
          end).

(** [d.mkdir(parents=True, exist_ok=True)], for [d] given by its components
    in reverse: the recursion of pathlib goes to the parent. *)
Fixpoint mkdir_parents_rev (rd : list string) : M unit :=
  let d := rev rd in
  try_except (os_mkdir d)
    (λ e, match e with
          | FileNotFoundError _ =>
              match rd with
              | [] => raise e
              | _ :: rd' => mkdir_parents_rev rd' ;; mkdir_leaf d
              end
          | _ => do f <- get_fs ; if is_dir f d then ret tt else raise e
          end).

Definition mkdir_parents (d : path) : M unit := mkdir_parents_rev (rev d).

(** [path.parent.resolve().mkdir(parents=True, exist_ok=True)]; the
    [RuntimeError] of a loop of links carries the fixed part of pathlib's
    message. *)
Definition ensure_dir (p : path) : M unit :=
  do f <- get_fs ;
  match resolve f (parent p) with
  | None => raise (RuntimeError "Symlink loop")
  | Some d => mkdir_parents d
  end.

(** [pixmap.save(p)] *)
Definition save (p : path) (content : string) : M unit :=
  log (Save p) ;;
  do f <- get_fs ;
  match lstat f p with
  | Some Dir => raise (IsADirectoryError (str p))
  | Some (Symlink t) => put_fs (<[t := File content]> f)
  | _ => put_fs (<[p := File content]> f)
  end.

(** ** [svg_to_png] *)

(** The [if scale is not None:] block. *)
Definition scale_drawing {N} `{Number N} (scale : N) (drawing : Drawing N)
  : result (Drawing N) :=
  let max_dimension := pymax (width drawing) (height drawing) in
  match div scale max_dimension with
  | None => Raise ZeroDivisionError
  | Some scale_factor =>
      Ok {| width := mul (width drawing) scale_factor;
            height := mul (height drawing) scale_factor;
            renderScale := scale_factor |}
  end.

Definition lift {A} (r : result A) : M A := λ w, (r, w).

Definition svg_to_png `{Env} (svg_path png_path : path)
    (scale : option num) (dpi : option Z) (alpha : bool) : M unit :=
  print ("Generating " +:+ str png_path +:+ " from " +:+ str svg_path +:+ "...") ;;
  (if bool_decide (scale ≠ None) && bool_decide (dpi ≠ None)
   then raise (ValueError "Cannot specify both scale and dpi") else ret tt) ;;
  log (Svg2rlg svg_path) ;;
  do f <- get_fs ;
  match svg2rlg f svg_path with
  | None =>
      raise (ValueError ("Failed to convert " +:+ str svg_path +:+ " to ReportLab drawing"))
  | Some drawing =>
      do drawing <- (match scale with
                     | Some s => lift (scale_drawing s drawing)
                     | None => ret drawing
                     end) ;
      log DrawToString ;;
      let pdf := drawToString drawing in
      log (GetPixmap alpha dpi) ;;
      let pixmap := get_pixmap pdf alpha dpi in
      ensure_dir png_path ;;
      save png_path pixmap
  end.

(** ** The tool invocation layer *)

(** [context.run(cmd, echo=True)]: the command is echoed and run; a status
    other than 0 raises [UnexpectedExit]. *)
Definition run `{Env} (cmd : string) : M unit :=
  log (Run cmd) ;;
  do f <- get_fs ;
  put_fs (fst (kicad cmd f)) ;;
  let exited := snd (kicad cmd f) in
  if (exited =? 0)%Z then ret tt else raise (UnexpectedExit exited).

(** [try: body except UnexpectedExit as e: handler(e.result.exited)] *)
Definition except_UnexpectedExit {A} (body : M A) (handler : Z → M A) : M A :=
  try_except body
    (λ e, match e with
          | UnexpectedExit exited => handler exited
          | _ => raise e
          end).

Definition unexpected (what : string) (exited : Z) : string :=
  nl +:+ "ERROR: " +:+ what +:+ " failed with an unexpected exit code ("
     +:+ show_Z exited +:+ ")".

Definition kicad_version_cmd `{Env} : string :=
  join " " [KICAD_CLI; "version"; "--format=about"].

Definition kicad_version `{Env} : M unit :=
  except_UnexpectedExit (run kicad_version_cmd)
    (λ exited,
       print (unexpected "KiCad version check" exited) ;;
       raise (UnexpectedExit exited)).

Definition schematic_erc_cmd `{Env} (schematic_path report_path : path) : string :=
  join " " [KICAD_CLI; "sch"; "erc";
            "--output=" +:+ str report_path;
            "--severity-warning"; "--severity-error"; "--exit-code-violations";
            str schematic_path].

Definition schematic_erc `{Env} (schematic_path report_path : path) : M unit :=
  print "Running ERC on the schematic..." ;;
  except_UnexpectedExit (run (schematic_erc_cmd schematic_path report_path))
    (λ exited,
       (if (exited =? 5)%Z then
          print (nl +:+ "ERROR: ERC violations found in the schematic.") ;;
          print ("Check " +:+ str report_path +:+ " for details.")
        else
          print (unexpected "ERC" exited)) ;;
       raise (UnexpectedExit exited)).

Definition schematic_export_pdf_cmd `{Env} (schematic_path pdf_path : path) : string :=
  join " " [KICAD_CLI; "sch"; "export"; "pdf";
            "--output=" +:+ dq +:+ str pdf_path +:+ dq;
            "--black-and-white"; "--no-background-color";
            dq +:+ str schematic_path +:+ dq].

Definition schematic_export_pdf `{Env} (schematic_path pdf_path : path) : M unit :=
  print "Exporting Schematic PDF..." ;;
  except_UnexpectedExit (run (schematic_export_pdf_cmd schematic_path pdf_path))
    (λ exited,
       print (unexpected "PDF export from the schematic" exited) ;;
       raise (UnexpectedExit exited)).

Definition schematic_export_svg_cmd `{Env} (schematic_path svg_path : path) : string :=
  join " " [KICAD_CLI; "sch"; "export"; "svg";
            "--output=" +:+ dq +:+ str svg_path +:+ dq;
            "--black-and-white"; "--no-background-color";
            dq +:+ str schematic_path +:+ dq].

Definition schematic_export_svg `{Env} (schematic_path svg_path : path) : M unit :=
  print "Exporting Schematic SVG..." ;;
  except_UnexpectedExit (run (schematic_export_svg_cmd schematic_path svg_path))
    (λ exited,
       print (unexpected "SVG export from the schematic" exited) ;;
       raise (UnexpectedExit exited)).

Definition schematic_export_bom_cmd `{Env} (schematic_path bom_path : path) : string :=
  join " " [KICAD_CLI; "sch"; "export"; "bom";
            "--output=" +:+ dq +:+ str bom_path +:+ dq;
            "--preset=" +:+ dq +:+ "Common Ground Electronics BOM" +:+ dq;
            "--format-preset=" +:+ dq +:+ "CSV" +:+ dq;
            dq +:+ str schematic_path +:+ dq].

Definition schematic_export_bom `{Env} (schematic_path bom_path : path) : M unit :=
  print "Exporting assembly BOM..." ;;
  except_UnexpectedExit (run (schematic_export_bom_cmd schematic_path bom_path))
    (λ exited,
       print (unexpected "BOM export from the schematic" exited) ;;
       raise (UnexpectedExit exited)).

Definition pcb_drc_cmd `{Env} (pcb_path report_path : path) : string :=
  join " " [KICAD_CLI; "pcb"; "drc";
            "--output=" +:+ str report_path;
            "--schematic-parity";
            "--severity-warning"; "--severity-error"; "--exit-code-violations";
            str pcb_path].

Definition pcb_drc `{Env} (pcb_path report_path : path) : M unit :=
  print "Running DRC on the PCB..." ;;
  except_UnexpectedExit (run (pcb_drc_cmd pcb_path report_path))
    (λ exited,
       (if (exited =? 5)%Z then
          print (nl +:+ "ERROR: DRC violations found in the PCB.") ;;
          print ("Check " +:+ str report_path +:+ " for details.")
        else
          print (unexpected "DRC" exited)) ;;
       raise (UnexpectedExit exited)).

Definition pcb_export_gerbers_cmd `{Env} (pcb_path gerbers_path : path)
    (layers : string) : string :=
  join " " [KICAD_CLI; "pcb"; "export"; "gerbers";
            "--output=" +:+ str gerbers_path;
            "--layers=" +:+ layers;
            "--exclude-value"; "--use-drill-file-origin"; "--no-protel-ext";
            str pcb_path].

Definition pcb_export_gerbers `{Env} (pcb_path gerbers_path : path)
    (layers : string) : M unit :=
  print "Exporting Gerbers from the PCB..." ;;
  except_UnexpectedExit (run (pcb_export_gerbers_cmd pcb_path gerbers_path layers))
    (λ exited,
       print (unexpected "Gerber export from the PCB" exited) ;;
       raise (UnexpectedExit exited)).

Definition pcb_export_odb_cmd `{Env} (pcb_path odb_path : path) : string :=
  join " " [KICAD_CLI; "pcb"; "export"; "odb";
            "--output=" +:+ str odb_path;
            str pcb_path].

Definition pcb_export_odb `{Env} (pcb_path odb_path : path) : M unit :=
  print "Exporting ODB++ from the PCB..." ;;
  except_UnexpectedExit (run (pcb_export_odb_cmd pcb_path odb_path))
    (λ exited,
       print (unexpected "Gerber export from the PCB" exited) ;;
       raise (UnexpectedExit exited)).

Definition pcb_export_pdf_cmd `{Env} (pcb_path pdf_path : path) (layers : string)
    (mirror multipage black_and_white : bool) : string :=
  let cmd_list :=
    [KICAD_CLI; "pcb"; "export"; "pdf";
     "--output=" +:+ str pdf_path;
     "--layers=" +:+ layers;
     "--exclude-value"; "--include-border-title"; "--common-layers=Edge.Cuts";
     "--drill-shape-opt=0";
     str pcb_path] in
  let cmd_list := if mirror then cmd_list ++ ["--mirror"] else cmd_list in
  let cmd_list := if multipage then cmd_list ++ ["--mode-multipage"]
                  else cmd_list ++ ["--mode-separate"] in
  let cmd_list := if black_and_white then cmd_list ++ ["--black-and-white"]
                  else cmd_list in
  join " " cmd_list.

Definition pcb_export_pdf `{Env} (pcb_path pdf_path : path) (layers : string)
    (mirror multipage black_and_white : bool) : M unit :=
  print "Exporting PDF from the PCB..." ;;
  except_UnexpectedExit
    (run (pcb_export_pdf_cmd pcb_path pdf_path layers mirror multipage black_and_white))
    (λ exited,
       print (unexpected "PDF export from the PCB" exited) ;;
       raise (UnexpectedExit exited)).

Definition pcb_export_drill_cmd `{Env} (pcb_path drill_file_path : path) : string :=
  join " " [KICAD_CLI; "pcb"; "export"; "drill";
            "--output=" +:+ str drill_file_path;
            "--drill-origin=plot"; "--generate-map";
            str pcb_path].

Definition pcb_export_drill `{Env} (pcb_path drill_file_path : path) : M unit :=
  print "Exporting drill file from the PCB..." ;;
  except_UnexpectedExit (run (pcb_export_drill_cmd pcb_path drill_file_path))
    (λ exited,
       print (unexpected "Drill file export from the PCB" exited) ;;
       raise (UnexpectedExit exited)).

Definition pcb_export_ipcd356_cmd `{Env} (pcb_path ipcd356_path : path) : string :=
  join " " [KICAD_CLI; "pcb"; "export"; "ipcd356";
            "--output=" +:+ str ipcd356_path;
            str pcb_path].

Definition pcb_export_ipcd356 `{Env} (pcb_path ipcd356_path : path) : M unit :=
  print "Exporting IPC-D-356 netlist from the PCB..." ;;
  except_UnexpectedExit (run (pcb_export_ipcd356_cmd pcb_path ipcd356_path))
    (λ exited,
       print (unexpected "IPC-D-356 netlist export from the PCB" exited) ;;
       raise (UnexpectedExit exited)).

Definition pcb_export_pos_cmd `{Env} (pcb_path position_path : path) : string :=
  join " " [KICAD_CLI; "pcb"; "export"; "pos";
            "--output=" +:+ str position_path;
            "--use-drill-file-origin";
            str pcb_path].

Definition pcb_export_pos `{Env} (pcb_path position_path : path) : M unit :=
  print "Exporting position file from the PCB..." ;;
  except_UnexpectedExit (run (pcb_export_pos_cmd pcb_path position_path))
    (λ exited,
       print (unexpected "position file export from the PCB" exited) ;;
       raise (UnexpectedExit exited)).

Definition pcb_render_cmd `{Env} (pcb_path render_path : path) (width height : Z)
    (side background : string) (perspective : bool) (zoom : Z) : string :=
  let cmd_list :=
    [KICAD_CLI; "pcb"; "render";
     "--output=" +:+ str render_path;
     "--width=" +:+ show_Z width;
     "--height=" +:+ show_Z height;
     "--side=" +:+ side;
     "--background=" +:+ background;
     "--zoom=" +:+ show_Z zoom;
     str pcb_path] in
  let cmd_list := if perspective then cmd_list ++ ["--perspective"] else cmd_list in
  join " " cmd_list.

Definition pcb_render `{Env} (pcb_path render_path : path) (width height : Z)
    (side background : string) (perspective : bool) (zoom : Z) : M unit :=
  print "Generating render from the PCB..." ;;
  except_UnexpectedExit
    (run (pcb_render_cmd pcb_path render_path width height side background
            perspective zoom))
    (λ exited,
       print (unexpected "IPC-D-356 netlist export from the PCB" exited) ;;
       raise (UnexpectedExit exited)).

(** ** Project metadata and paths *)

Definition PROJECT_NAME : string := "RPi_Pico_SAO_Host".
Definition PROJECT_VERSION_MAJOR : string := "2".
Definition PCB_PART_NUMBER : string := "100092".
Definition PCB_REV : string := "A".
Definition SCH_PART_NUMBER : string := "100093".
Definition SCH_REV : string := "A".
Definition PCA_PART_NUMBER : string := "100094".
Definition PCA_REV : string := "A".

Definition SCH_PATH : path := Path (PROJECT_NAME +:+ ".kicad_sch").
Definition PCB_PATH : path := Path (PROJECT_NAME +:+ ".kicad_pcb").

Definition OUTPUT_PATH : path :=
  Path ("output/" +:+ PROJECT_NAME +:+ "_v" +:+ PROJECT_VERSION_MAJOR).

Definition REPORT_OUTPUT_PATH : path := OUTPUT_PATH </> Path "Reports".
Definition ERC_REPORT_PATH : path :=
  REPORT_OUTPUT_PATH </>
  Path (PROJECT_NAME +:+ "_v" +:+ PROJECT_VERSION_MAJOR +:+ "_ERC_report.txt").
Definition DRC_REPORT_PATH : path :=
  REPORT_OUTPUT_PATH </>
  Path (PROJECT_NAME +:+ "_v" +:+ PROJECT_VERSION_MAJOR +:+ "_DRC_report.txt").

Definition PCA_OUTPUT_PATH : path :=
  OUTPUT_PATH </>
  Path (PROJECT_NAME +:+ "_v" +:+ PROJECT_VERSION_MAJOR +:+ "_PCA_"
        +:+ PCA_PART_NUMBER +:+ "_Rev_" +:+ PCA_REV).
Definition SCH_OUTPUT_PATH : path := PCA_OUTPUT_PATH </> Path "Schematic".
Definition BOM_OUTPUT_PATH : path := PCA_OUTPUT_PATH </> Path "BOM".
Definition SCH_PDF_PATH : path :=
  SCH_OUTPUT_PATH </>
  Path (PROJECT_NAME +:+ "_v" +:+ PROJECT_VERSION_MAJOR +:+ "_Schematic_"
        +:+ SCH_PART_NUMBER +:+ "_Rev_" +:+ SCH_REV +:+ ".pdf").
Definition SCH_SVG_PATH : path :=
  SCH_OUTPUT_PATH </>
  Path (PROJECT_NAME +:+ "_v" +:+ PROJECT_VERSION_MAJOR +:+ "_Schematic_"
        +:+ SCH_PART_NUMBER +:+ "_Rev_" +:+ SCH_REV +:+ "_SVG").
Definition SCH_PNG_PATH : path :=
  SCH_OUTPUT_PATH </>
  Path (PROJECT_NAME +:+ "_v" +:+ PROJECT_VERSION_MAJOR +:+ "_Schematic_"
        +:+ SCH_PART_NUMBER +:+ "_Rev_" +:+ SCH_REV +:+ ".png").
Definition BOM_PATH : path :=
  BOM_OUTPUT_PATH </>
  Path (PROJECT_NAME +:+ "_v" +:+ PROJECT_VERSION_MAJOR +:+ "_ECAD_BOM_"
        +:+ PCA_PART_NUMBER +:+ "_Rev_" +:+ PCA_REV +:+ ".csv").
Definition PCA_RENDER_PATH : path := PCA_OUTPUT_PATH </> Path "Renders".

Definition PCB_OUTPUT_PATH : path :=
  OUTPUT_PATH </>
  Path (PROJECT_NAME +:+ "_v" +:+ PROJECT_VERSION_MAJOR +:+ "_PCB_"
        +:+ PCB_PART_NUMBER +:+ "_Rev_" +:+ PCB_REV).
Definition GERBERS_PATH : path := PCB_OUTPUT_PATH </> Path "Gerbers".
Definition ODB_PATH : path :=
  PCB_OUTPUT_PATH </> Path "ODB++" </> Path (PROJECT_NAME +:+ ".zip").
Definition PCB_PDF_PATH : path := PCB_OUTPUT_PATH </> Path "PDF".
Definition DRILL_FILES_PATH : path := PCB_OUTPUT_PATH </> Path "Drill_Files".
Definition IPCD356_PATH : path :=
  PCB_OUTPUT_PATH </> Path "Netlist" </> Path (PROJECT_NAME +:+ ".d356").
Definition POSITION_PATH : path :=
  PCB_OUTPUT_PATH </> Path "Position" </> Path (PROJECT_NAME +:+ ".pos").
Definition PCB_RENDER_PATH : path := OUTPUT_PATH </> Path "Renders".

(** ** The tasks *)

(** The list [paths] that [clean] builds. *)
Definition clean_paths (kicad_backups kicad_cache_files all : bool) : list string :=
  let paths := [str OUTPUT_PATH] in
  let paths := if kicad_backups || all
               then paths ++ [PROJECT_NAME +:+ "-backups"] else paths in
  let paths := if kicad_cache_files || all
               then paths ++ ["fp-info-cache"] else paths in
  paths.

Definition clean `{Env} (kicad_backups kicad_cache_files all : bool) : M unit :=
  for_ (clean_paths kicad_backups kicad_cache_files all)
       (λ path_arg, rm path_arg true true false).

Definition env `{Env} : M unit := kicad_version.

Definition check `{Env} : M unit :=
  schematic_erc SCH_PATH ERC_REPORT_PATH ;;
  pcb_drc PCB_PATH DRC_REPORT_PATH.

Definition GERBER_LAYERS : string :=
  "F.Cu,B.Cu,F.Paste,B.Paste,F.Silkscreen,B.Silkscreen,F.Mask,B.Mask,User.Drawings,User.Comments,Edge.Cuts,F.Fab,B.Fab,User.1,User.2".
Definition FRONT_PDF_LAYERS : string :=
  "F.Cu,F.Paste,F.Silkscreen,F.Mask,User.Drawings,User.Comments,Edge.Cuts,F.Fab,User.1".
Definition BACK_PDF_LAYERS : string :=
  "B.Cu,B.Paste,B.Silkscreen,B.Mask,B.Fab,User.2".

(** The statements of the body of [release], in order. *)
Definition release_steps `{Env} : list (M unit) :=
  [ schematic_export_pdf SCH_PATH SCH_PDF_PATH;
    schematic_export_svg SCH_PATH SCH_SVG_PATH;
    svg_to_png (SCH_SVG_PATH </> Path (PROJECT_NAME +:+ ".svg"))
               (with_suffix SCH_PNG_PATH ".png")
               None (Some 300) false;
    svg_to_png (SCH_SVG_PATH </> Path (PROJECT_NAME +:+ ".svg"))
               (with_name SCH_PNG_PATH (stem SCH_PNG_PATH +:+ "_thumbnail.png"))
               (Some (of_Z 500)) None false;
    schematic_export_bom SCH_PATH BOM_PATH;
    pcb_export_gerbers PCB_PATH GERBERS_PATH GERBER_LAYERS;
    pcb_export_drill PCB_PATH DRILL_FILES_PATH;
    pcb_export_ipcd356 PCB_PATH IPCD356_PATH;
    pcb_export_pdf PCB_PATH PCB_PDF_PATH FRONT_PDF_LAYERS false false true;
    pcb_export_pdf PCB_PATH PCB_PDF_PATH BACK_PDF_LAYERS true false true;
    pcb_export_pos PCB_PATH POSITION_PATH ].

(** The body of [release]. *)
Definition release `{Env} : M unit :=
  schematic_export_pdf SCH_PATH SCH_PDF_PATH ;;
  schematic_export_svg SCH_PATH SCH_SVG_PATH ;;
  svg_to_png (SCH_SVG_PATH </> Path (PROJECT_NAME +:+ ".svg"))
             (with_suffix SCH_PNG_PATH ".png")
             None (Some 300) false ;;
  svg_to_png (SCH_SVG_PATH </> Path (PROJECT_NAME +:+ ".svg"))
             (with_name SCH_PNG_PATH (stem SCH_PNG_PATH +:+ "_thumbnail.png"))
             (Some (of_Z 500)) None false ;;
  schematic_export_bom SCH_PATH BOM_PATH ;;
  pcb_export_gerbers PCB_PATH GERBERS_PATH GERBER_LAYERS ;;
  pcb_export_drill PCB_PATH DRILL_FILES_PATH ;;
  pcb_export_ipcd356 PCB_PATH IPCD356_PATH ;;
  pcb_export_pdf PCB_PATH PCB_PDF_PATH FRONT_PDF_LAYERS false false true ;;
  pcb_export_pdf PCB_PATH PCB_PDF_PATH BACK_PDF_LAYERS true false true ;;
  pcb_export_pos PCB_PATH POSITION_PATH.

(** invoke's [@task(pre=[...])]: calling the task runs the pre-tasks in the
    order given, then the body. *)
Definition task_call (pre : list (M unit)) (body : M unit) : M unit :=
  for_ pre (λ t, t) ;; body.

(** [invoke release] *)
Definition release_task `{Env} : M unit := task_call [env; check] release.

(** Everything [invoke release] is to run, in order: the pre-tasks ([check]
    split into its two statements), then the statements of the body. *)
Definition release_plan `{Env} : list (M unit) :=
  [ env;
    schematic_erc SCH_PATH ERC_REPORT_PATH;
    pcb_drc PCB_PATH DRC_REPORT_PATH ] ++ release_steps.

(** ** A catalogue of the tool invocation functions *)

Inductive tool_call : Type :=
  | KicadVersion
  | SchematicErc (schematic_path report_path : path)
  | SchematicExportPdf (schematic_path pdf_path : path)
  | SchematicExportSvg (schematic_path svg_path : path)
  | SchematicExportBom (schematic_path bom_path : path)
  | PcbDrc (pcb_path report_path : path)
  | PcbExportGerbers (pcb_path gerbers_path : path) (layers : string)
  | PcbExportOdb (pcb_path odb_path : path)
  | PcbExportPdf (pcb_path pdf_path : path) (layers : string)
                 (mirror multipage black_and_white : bool)
  | PcbExportDrill (pcb_path drill_file_path : path)
  | PcbExportIpcd356 (pcb_path ipcd356_path : path)
  | PcbExportPos (pcb_path position_path : path)
  | PcbRender (pcb_path render_path : path) (width height : Z)
              (side background : string) (perspective : bool) (zoom : Z).

Definition exec `{Env} (c : tool_call) : M unit :=
  match c with
  | KicadVersion => kicad_version
  | SchematicErc s r => schematic_erc s r
  | SchematicExportPdf s p => schematic_export_pdf s p
  | SchematicExportSvg s p => schematic_export_svg s p
  | SchematicExportBom s p => schematic_export_bom s p
  | PcbDrc b r => pcb_drc b r
  | PcbExportGerbers b g l => pcb_export_gerbers b g l
  | PcbExportOdb b o => pcb_export_odb b o
  | PcbExportPdf b p l m mp bw => pcb_export_pdf b p l m mp bw
  | PcbExportDrill b d => pcb_export_drill b d
  | PcbExportIpcd356 b i => pcb_export_ipcd356 b i
  | PcbExportPos b p => pcb_export_pos b p
  | PcbRender b r w h s bg p z => pcb_render b r w h s bg p z
  end.

Definition command `{Env} (c : tool_call) : string :=
  match c with
  | KicadVersion => kicad_version_cmd
  | SchematicErc s r => schematic_erc_cmd s r
  | SchematicExportPdf s p => schematic_export_pdf_cmd s p
  | SchematicExportSvg s p => schematic_export_svg_cmd s p
  | SchematicExportBom s p => schematic_export_bom_cmd s p
  | PcbDrc b r => pcb_drc_cmd b r
  | PcbExportGerbers b g l => pcb_export_gerbers_cmd b g l
  | PcbExportOdb b o => pcb_export_odb_cmd b o
  | PcbExportPdf b p l m mp bw => pcb_export_pdf_cmd b p l m mp bw
  | PcbExportDrill b d => pcb_export_drill_cmd b d
  | PcbExportIpcd356 b i => pcb_export_ipcd356_cmd b i
  | PcbExportPos b p => pcb_export_pos_cmd b p
  | PcbRender b r w h s bg p z => pcb_render_cmd b r w h s bg p z
  end.

(** The rule checks: the two functions with a branch on status 5. *)
Definition is_rule_check (c : tool_call) : bool :=
  match c with
  | SchematicErc _ _ | PcbDrc _ _ => true
  | _ => false
  end.

(** What a function prints before it starts the subprocess. *)
Definition banner (c : tool_call) : list event :=
  match c with
  | KicadVersion => []
  | SchematicErc _ _ => [Print "Running ERC on the schematic..."]
  | SchematicExportPdf _ _ => [Print "Exporting Schematic PDF..."]
  | SchematicExportSvg _ _ => [Print "Exporting Schematic SVG..."]
  | SchematicExportBom _ _ => [Print "Exporting assembly BOM..."]
  | PcbDrc _ _ => [Print "Running DRC on the PCB..."]
  | PcbExportGerbers _ _ _ => [Print "Exporting Gerbers from the PCB..."]
  | PcbExportOdb _ _ => [Print "Exporting ODB++ from the PCB..."]
  | PcbExportPdf _ _ _ _ _ _ => [Print "Exporting PDF from the PCB..."]
  | PcbExportDrill _ _ => [Print "Exporting drill file from the PCB..."]
  | PcbExportIpcd356 _ _ => [Print "Exporting IPC-D-356 netlist from the PCB..."]
  | PcbExportPos _ _ => [Print "Exporting position file from the PCB..."]
  | PcbRender _ _ _ _ _ _ _ _ => [Print "Generating render from the PCB..."]
  end.

(** The operation named in the generic diagnostic of a function. *)
Definition operation (c : tool_call) : string :=
  match c with
  | KicadVersion => "KiCad version check"
  | SchematicErc _ _ => "ERC"
  | SchematicExportPdf _ _ => "PDF export from the schematic"
  | SchematicExportSvg _ _ => "SVG export from the schematic"
  | SchematicExportBom _ _ => "BOM export from the schematic"
  | PcbDrc _ _ => "DRC"
  | PcbExportGerbers _ _ _ => "Gerber export from the PCB"
  | PcbExportOdb _ _ => "Gerber export from the PCB"
  | PcbExportPdf _ _ _ _ _ _ => "PDF export from the PCB"
  | PcbExportDrill _ _ => "Drill file export from the PCB"
  | PcbExportIpcd356 _ _ => "IPC-D-356 netlist export from the PCB"
  | PcbExportPos _ _ => "position file export from the PCB"
  | PcbRender _ _ _ _ _ _ _ _ => "IPC-D-356 netlist export from the PCB"
  end.

Definition is_Run (e : event) : bool :=
  match e with Run _ => true | _ => false end.

(** The subprocesses started between two worlds. *)
Definition runs (evs : list event) : list event := List.filter is_Run evs.

(** [s] occurs in [t]. *)
Definition mentions (t s : string) : Prop := ∃ pre post, t = pre +:+ s +:+ post.

(** What was logged between the world [w] and a later world [w']. *)
Definition emitted (w w' : World) : list event := drop (length (out w)) (out w').

(** The world in which the subprocess of [cmd] has finished: the function
    had logged [pre] before it started the subprocess and [post] after it. *)
Definition finished `{Env} (w : World) (pre : list event) (cmd : string)
    (post : list event) : World :=
  mkWorld (fst (kicad cmd (fs w))) (out w ++ pre ++ Run cmd :: post).

(** A computation only ever appends to the log. *)
Definition grows {A} (m : M A) : Prop :=
  ∀ w, ∃ evs, out (snd (m w)) = out w ++ evs.

(** The file system after [rm(p, recursive=True, force=True)] of one path. *)
Definition removed (p : path) (f : gmap path node) : gmap path node :=
  match lstat f p with
  | Some (File _) | Some (Symlink _) => delete p f
  | Some Dir => without_tree p f
  | Some Other | None => f
  end.

(** The real number a float stands for; 0 for what is not finite. *)
Definition B2R (x : float) : R :=
  match x with
  | S754_finite s m e => ((if s then -1 else 1) * IZR (Z.pos m) * powerRZ 2 e)%R
  | _ => 0%R
  end.

(** A positive normal float, 53 bits of mantissa, whose exponent lies between
    [lo] and [hi]. *)
Definition normal_between (lo hi : Z) (x : float) : bool :=
  match x with
  | S754_finite false m e =>
      (Z.pos (digits2_pos m) =? 53)%Z && (lo <=? e)%Z && (e <=? hi)%Z
  | _ => false
  end.

(** A positive normal float from [2^-300] up to, not including, [2^300]:
    the mantissa of a normal float lies from [2^52] up to [2^53]. *)
Definition moderate : float → bool := normal_between (-352) 247.

(** The generator raises [e] at some point of some iteration: what it goes on
    to yield may depend on the file system it is resumed in. *)
Inductive raises : gen → exn → Prop :=
  | raises_now (e : exn) : raises (Fail e) e
  | raises_later (p : path) (next : gmap path node → gen) (f : gmap path node)
      (e : exn) : raises (next f) e → raises (Yield p next) e.

(** The generator runs to its end, in whatever file systems it is resumed. *)
Inductive never_raises : gen → Prop :=
  | never_raises_done : never_raises Done
  | never_raises_yield (p : path) (next : gmap path node → gen) :
      (∀ f, never_raises (next f)) → never_raises (Yield p next).

(** Every entry lies in directories: the ancestors of its path are stored,
    as directories. *)
Definition tree (f : gmap path node) : bool :=
  forallb (λ qx : path * node,
             forallb (λ a, match f !! a with Some Dir => true | _ => false end)
                     (prefixes (parent qx.1)))
          (map_to_list f).

(** [w'] is [w] with directories added at paths that satisfy [P], and
    nothing else changed. *)
Definition adds_dirs (P : path → Prop) (w w' : World) : Prop :=
  out w' = out w
  ∧ ∀ q : path, fs w' !! q = fs w !! q
                ∨ (fs w !! q = None ∧ fs w' !! q = Some Dir ∧ q ≠ [] ∧ P q).

(** The path names its entry as the file system stores it: no component is
    [..] and no directory on the way to the last component is a link. *)
Definition lexical (f : gmap path node) (p : path) : bool :=
  forallb (λ c, negb (String.eqb c "..")) p
  && forallb (λ a, negb (is_symlink f a)) (prefixes (parent p)).

(** ** Concrete environments *)

(** A matcher for the [*] and [?] wildcards. *)
Fixpoint wildcard (pat s : list ascii) : bool :=
  match pat with
  | [] => match s with [] => true | _ => false end
  | c :: pat' =>
      if Ascii.eqb c "*"%char then
        (fix star (s : list ascii) : bool :=
           wildcard pat' s || match s with [] => false | _ :: s' => star s' end) s
      else
        match s with
        | [] => false
        | d :: s' => (Ascii.eqb c "?"%char || Ascii.eqb c d) && wildcard pat' s'
        end
  end.

Definition fnmatch_wildcard (n pattern : string) : bool :=
  wildcard (list_ascii_of_string pattern) (list_ascii_of_string n).

(** [sub in s] *)
Fixpoint contains (sub s : string) : bool :=
  String.prefix sub s
  || match s with
     | EmptyString => false
     | String _ s' => contains sub s'
     end.

(** [p.exists()]: links are followed. *)
Definition exists_ (f : gmap path node) (p : path) : bool :=
  match stat f p with Some _ => true | None => false end.

(** The entries of a directory. *)
Definition children (f : gmap path node) (dir : path) : list path :=
  List.filter (λ q, bool_decide (q ≠ [] ∧ parent q = dir)) (map fst (map_to_list f)).

(** The generator of the pattern [**]: a directory is yielded, and listed
    for its subdirectories only when the generator is resumed. *)
Fixpoint walk (depth : nat) (d : path) (rest : gen) : gen :=
  Yield d (λ f,
    match depth with
    | O => rest
    | S n =>
        if is_dir f d then
          fold_right (λ c r, walk n c r) rest
            (List.filter (λ c, match f !! c with Some Dir => true | _ => false end)
               (children f d))
        else Fail (FileNotFoundError d)
    end).

(** The selectors of pathlib 3.11 for a pattern of one component: [**]
    walks the directory tree, [**] inside a component is refused, a pattern
    with a wildcard is matched against the entries listed when the iteration
    starts (character classes are not interpreted here), and a plain name is
    looked up.  A name of more than 255 characters makes the lookup fail. *)
Definition pathlib_select (f : gmap path node) (dir : path) (pattern : string) : gen :=
  if String.eqb pattern "**" then
    if is_dir f dir then walk (S (size f)) dir Done else Done
  else if contains "**" pattern then
    Fail (ValueError "Invalid pattern: '**' can only be an entire path component")
  else if negb (is_dir f dir) then Done
  else if contains "*" pattern || contains "?" pattern || contains "[" pattern then
    gen_of_list (List.filter (λ q, fnmatch_wildcard (name q) pattern) (children f dir))
  else if (255 <? String.length pattern)%nat then
    Fail (OSError "File name too long")
  else if String.eqb pattern ".." || exists_ f (dir ++ [pattern]) then
    gen_of_list [dir ++ [pattern]]
  else Done.

(** An A4 landscape sheet, in millimetres. *)
Definition a4_landscape : Drawing float :=
  {| width := of_Z 297; height := of_Z 210; renderScale := of_Z 1 |}.

(** An environment in which [kicad-cli] leaves the file system alone and
    exits with [status cmd]. *)
Definition demo_env (status : string → Z) : Env := {|
  KICAD_CLI := "kicad-cli";
  kicad := λ cmd f, (f, status cmd);
  glob_select := pathlib_select;
  num := float;
  num_ops := Number_float;
  svg2rlg := λ f p, match f !! p with Some (File _) => Some a4_landscape | _ => None end;
  drawToString := λ _, "%PDF";
  get_pixmap := λ _ _ _, "PNG"
|}.

(** Every command reports violations. *)
Definition violations_env : Env := demo_env (λ _, 5).

(** The ERC reports violations, every other command succeeds. *)
Definition erc_fails_env : Env :=
  demo_env (λ cmd, if String.prefix "kicad-cli sch erc" cmd then 5 else 0).

Definition empty_world : World := mkWorld ∅ [].

(** A project directory holding a directory [build], a link [latest] to it,
    and a file below it. *)
Definition build_world : World :=
  mkWorld (<[ ["build"] := Dir ]>
           (<[ ["build"; "a.txt"] := File "a" ]>
           (<[ ["latest"] := Symlink ["build"] ]> ∅))) [].

(** ** Further specification vocabulary and environments *)
(** A computation that starts no subprocess. *)
Definition quiet {A} (m : M A) : Prop :=
  ∀ w, ∃ evs, out (snd (m w)) = out w ++ evs ∧ runs evs = [].

(** A step that, whenever it is run, starts exactly the subprocesses [rs]. *)
Definition starts (m : M unit) (rs : list event) : Prop :=
  ∀ w, ∃ evs, out (snd (m w)) = out w ++ evs ∧ runs evs = rs.

(** The commands of [invoke release], in the order of the source. *)
Definition release_commands `{Env} : list string :=
  [ kicad_version_cmd;
    schematic_erc_cmd SCH_PATH ERC_REPORT_PATH;
    pcb_drc_cmd PCB_PATH DRC_REPORT_PATH;
    schematic_export_pdf_cmd SCH_PATH SCH_PDF_PATH;
    schematic_export_svg_cmd SCH_PATH SCH_SVG_PATH;
    schematic_export_bom_cmd SCH_PATH BOM_PATH;
    pcb_export_gerbers_cmd PCB_PATH GERBERS_PATH GERBER_LAYERS;
    pcb_export_drill_cmd PCB_PATH DRILL_FILES_PATH;
    pcb_export_ipcd356_cmd PCB_PATH IPCD356_PATH;
    pcb_export_pdf_cmd PCB_PATH PCB_PDF_PATH FRONT_PDF_LAYERS false false true;
    pcb_export_pdf_cmd PCB_PATH PCB_PDF_PATH BACK_PDF_LAYERS true false true;
    pcb_export_pos_cmd PCB_PATH POSITION_PATH ].

(** The report and export destinations of the script: the paths of the
    sections "Report Output Paths", "PCA Output Paths" and "PCB Output Paths"
    of the source. *)
Definition OUTPUT_TREE : list path :=
  [ REPORT_OUTPUT_PATH; ERC_REPORT_PATH; DRC_REPORT_PATH;
    PCA_OUTPUT_PATH; SCH_OUTPUT_PATH; BOM_OUTPUT_PATH; SCH_PDF_PATH;
    SCH_SVG_PATH; SCH_PNG_PATH; BOM_PATH; PCA_RENDER_PATH;
    PCB_OUTPUT_PATH; GERBERS_PATH; ODB_PATH; PCB_PDF_PATH; DRILL_FILES_PATH;
    IPCD356_PATH; POSITION_PATH; PCB_RENDER_PATH ].

(** [get_kicad_cli_path()], given [platform.system()] and the file system.
    The two candidates are absolute paths: [str] of them starts with the
    slash that the component list does not keep.  The argument of
    [FileNotFoundError] is the message. *)
Definition get_kicad_cli_path (system : string) (f : gmap path node) : result string :=
  if String.eqb system "Darwin" then
    let kicad_9_path :=
      Path "/Applications/KiCad_9.0/KiCad.app/Contents/MacOS/kicad-cli" in
    if exists_ f kicad_9_path then Ok ("/" +:+ str kicad_9_path)
    else
      let kicad_default_path :=
        Path "/Applications/KiCad/KiCad.app/Contents/MacOS/kicad-cli" in
      if exists_ f kicad_default_path then Ok ("/" +:+ str kicad_default_path)
      else Raise (FileNotFoundError ["kicad-cli not found"])
  else Ok "kicad-cli".

(** An environment whose drawings are empty: width and height 0. *)
Definition blank_env : Env := {|
  KICAD_CLI := "kicad-cli";
  kicad := λ cmd f, (f, 0);
  glob_select := pathlib_select;
  num := float;
  num_ops := Number_float;
  svg2rlg := λ f p,
    match f !! p with
    | Some (File _) =>
        Some {| width := of_Z 0; height := of_Z 0; renderScale := of_Z 1 |}
    | _ => None
    end;
  drawToString := λ _, "%PDF";
  get_pixmap := λ _ _ _, "PNG"
|}.

(** A project directory that holds a drawing. *)
Definition svg_world : World := mkWorld (<[ ["logo.svg"] := File "<svg/>" ]> ∅) [].

(** A Mac with the default KiCad installed, and not KiCad 9.0. *)
Definition mac_fs : gmap path node :=
  <[ Path "/Applications/KiCad/KiCad.app/Contents/MacOS/kicad-cli" := File "" ]> ∅.

(** A project directory in which the schematic has been exported to SVG. *)
Definition exported_world : World :=
  mkWorld (<[ SCH_SVG_PATH </> Path (PROJECT_NAME +:+ ".svg") := File "<svg/>" ]> ∅) [].

(** * Properties *)

(** ** The monad *)

Lemma bind_ok {A B} (m : M A) (k : A → M B) w a w' :
  m w = (Ok a, w') → bind m k w = k a w'.
Proof. unfold bind. intros ->. reflexivity. Qed.

Lemma bind_raise {A B} (m : M A) (k : A → M B) w e w' :
  m w = (Raise e, w') → bind m k w = (Raise e, w').
Proof. unfold bind. intros ->. reflexivity. Qed.

Lemma print_bind {B} (line : string) (k : M B) w :
  (print line ;; k) w = k (mkWorld (fs w) (out w ++ [Print line])).
Proof. reflexivity. Qed.

Lemma emitted_app w f evs : emitted w (mkWorld f (out w ++ evs)) = evs.
Proof. unfold emitted. cbn [out]. apply drop_app_length. Qed.

(** A sequence stops at the first statement that raises: the statements
    after it leave no trace in the world. *)
Lemma for_app_raise {A} (xs ys : list A) (x : A) (body : A → M unit) w w1 w2 e :
  for_ xs body w = (Ok tt, w1) →
  body x w1 = (Raise e, w2) →
  for_ (xs ++ x :: ys) body w = (Raise e, w2).
Proof.
  revert w. induction xs as [|x0 xs IH]; intros w Hxs Hx; cbn [for_ app] in *.
  - injection Hxs as <-. apply bind_raise, Hx.
  - unfold bind in *. destruct (body x0 w) as [[[]|e0] w0]; [|discriminate].
    apply IH; assumption.
Qed.

Lemma for_app_ok {A} (xs ys : list A) (body : A → M unit) w w1 :
  for_ xs body w = (Ok tt, w1) →
  for_ (xs ++ ys) body w = for_ ys body w1.
Proof.
  revert w. induction xs as [|x0 xs IH]; intros w Hxs; cbn [for_ app] in *.
  - injection Hxs as <-. reflexivity.
  - unfold bind in *. destruct (body x0 w) as [[[]|e0] w0]; [|discriminate].
    apply IH; assumption.
Qed.

(** ** The tool invocation layer *)

Section ToolInvocation.
Context `{Env}.

Lemma guarded_run pre cmd (handler : Z → M unit) f o :
  except_UnexpectedExit (run cmd) handler (mkWorld f (o ++ pre)) =
  let exited := snd (kicad cmd f) in
  let w1 := mkWorld (fst (kicad cmd f)) (o ++ pre ++ [Run cmd]) in
  if (exited =? 0)%Z then (Ok tt, w1) else handler exited w1.
Proof.
  unfold except_UnexpectedExit, try_except, run, bind, log, get_fs, put_fs,
    raise, ret. cbn [fs out]. rewrite <- app_assoc.
  destruct (snd (kicad cmd f) =? 0)%Z; reflexivity.
Qed.

Lemma exec_unfold (c : tool_call) (w : World) :
  exec c w =
  let exited := snd (kicad (command c) (fs w)) in
  if (exited =? 0)%Z then (Ok tt, finished w (banner c) (command c) [])
  else if is_rule_check c && (exited =? 5)%Z then
    match c with
    | SchematicErc _ r =>
        (Raise (UnexpectedExit exited),
         finished w (banner c) (command c)
           [Print (nl +:+ "ERROR: ERC violations found in the schematic.");
            Print ("Check " +:+ str r +:+ " for details.")])
    | PcbDrc _ r =>
        (Raise (UnexpectedExit exited),
         finished w (banner c) (command c)
           [Print (nl +:+ "ERROR: DRC violations found in the PCB.");
            Print ("Check " +:+ str r +:+ " for details.")])
    | _ => (Raise (UnexpectedExit exited),
            finished w (banner c) (command c)
              [Print (unexpected (operation c) exited)])
    end
  else (Raise (UnexpectedExit exited),
        finished w (banner c) (command c) [Print (unexpected (operation c) exited)]).
Proof.
  destruct w as [f o].
  destruct c; cbn [exec command banner operation is_rule_check andb fs out];
    unfold kicad_version, schematic_erc, schematic_export_pdf,
      schematic_export_svg, schematic_export_bom, pcb_drc, pcb_export_gerbers,
      pcb_export_odb, pcb_export_pdf, pcb_export_drill, pcb_export_ipcd356,
      pcb_export_pos, pcb_render;
    rewrite ?print_bind; cbn [fs out];
    try (rewrite <- (app_nil_r o) at 1);
    rewrite guarded_run; cbn zeta; unfold finished; cbn [fs out];
    rewrite ?app_nil_r;
    destruct (snd (kicad _ f) =? 0)%Z; try reflexivity;
    try destruct (snd (kicad _ f) =? 5)%Z;
    unfold bind, print, log, raise; cbn [fs out];
    rewrite <- ?app_assoc; reflexivity.
Qed.

Lemma exec_ok_iff (c : tool_call) (w : World) :
  fst (exec c w) = Ok tt ↔ snd (kicad (command c) (fs w)) = 0.
Proof.
  rewrite exec_unfold. cbn zeta.
  destruct (Z.eqb_spec (snd (kicad (command c) (fs w))) 0) as [E|E].
  - cbn [fst]. tauto.
  - split; [|tauto]. intros Hok. exfalso.
    destruct (is_rule_check c && _); [destruct c|]; cbn in Hok; discriminate.
Qed.

Lemma exec_runs_once (c : tool_call) (w : World) :
  runs (emitted w (snd (exec c w))) = [Run (command c)].
Proof.
  rewrite exec_unfold. cbn zeta.
  assert (Hb : runs (banner c) = []) by (destruct c; reflexivity).
  destruct (_ =? 0)%Z; [|destruct (is_rule_check c && _); [destruct c|]];
    cbn [snd]; unfold finished; rewrite ?emitted_app; unfold runs in *;
    rewrite ?List.filter_app, ?Hb; reflexivity.
Qed.

End ToolInvocation.

(** C1. When the subprocess of [schematic_erc] or [pcb_drc] exits with
    status 5, the function prints a line that names the report path it was
    given, raises the [UnexpectedExit] it caught and so does not return
    normally; in any world, it returns normally exactly when the status is 0. *)
Theorem rule_check_status_5 `{Env} (src report_path : path) (c : tool_call) (w : World) :
  c = SchematicErc src report_path ∨ c = PcbDrc src report_path →
  snd (kicad (command c) (fs w)) = 5 →
  fst (exec c w) = Raise (UnexpectedExit 5)
  ∧ Print ("Check " +:+ str report_path +:+ " for details.")
      ∈ emitted w (snd (exec c w))
  ∧ mentions ("Check " +:+ str report_path +:+ " for details.") (str report_path)
  ∧ (∀ w0, fst (exec c w0) = Ok tt ↔ snd (kicad (command c) (fs w0)) = 0).
Proof.
  intros Hc H5. repeat split.
  - rewrite exec_unfold. cbn zeta. rewrite H5.
    destruct Hc as [-> | ->]; reflexivity.
  - rewrite exec_unfold. cbn zeta. rewrite H5.
    destruct Hc as [-> | ->]; cbn [Z.eqb Pos.eqb is_rule_check andb snd];
      unfold finished; rewrite emitted_app; cbn [banner app];
      rewrite !elem_of_cons; auto.
  - exists "Check ", " for details.". reflexivity.
  - apply exec_ok_iff.
  - apply exec_ok_iff.
Qed.

Lemma rule_check_status_5_witness :
  snd (kicad (Env := violations_env)
         (command (H := violations_env) (SchematicErc SCH_PATH ERC_REPORT_PATH))
         (fs empty_world)) = 5
  ∧ fst (exec (H := violations_env) (SchematicErc SCH_PATH ERC_REPORT_PATH) empty_world)
    = Raise (UnexpectedExit 5).
Proof.
  split; [reflexivity|].
  apply (rule_check_status_5 (H := violations_env) SCH_PATH ERC_REPORT_PATH
           (SchematicErc SCH_PATH ERC_REPORT_PATH) empty_world);
    [left; reflexivity | reflexivity].
Defined.

(** C9. Every tool invocation function treats a non-zero exit status the same
    way, except the two rule checks at status 5: it prints the generic
    diagnostic with the numeric status and raises the [UnexpectedExit] it
    caught.  This covers status 5 for the version query, the exports and the
    render.  No function starts its subprocess more than once, whatever the
    status. *)
Theorem nonzero_status_generic `{Env} (c : tool_call) (w : World) (exited : Z) :
  snd (kicad (command c) (fs w)) = exited →
  exited ≠ 0 →
  is_rule_check c = false ∨ exited ≠ 5 →
  exec c w = (Raise (UnexpectedExit exited),
              finished w (banner c) (command c)
                [Print (unexpected (operation c) exited)])
  ∧ (∀ c0 w0, runs (emitted w0 (snd (exec c0 w0))) = [Run (command c0)]).
Proof.
  intros Hst Hnz Hgen. split; [|apply exec_runs_once].
  rewrite exec_unfold. cbn zeta. rewrite Hst.
  destruct (Z.eqb_spec exited 0) as [|_]; [contradiction|].
  destruct Hgen as [-> | H5]; [reflexivity|].
  destruct (Z.eqb_spec exited 5) as [|_]; [contradiction|].
  rewrite andb_false_r. reflexivity.
Qed.

Lemma nonzero_status_generic_witness :
  exec (H := violations_env) (PcbExportDrill PCB_PATH DRILL_FILES_PATH) empty_world
  = (Raise (UnexpectedExit 5),
     finished (H := violations_env) empty_world
       [Print "Exporting drill file from the PCB..."]
       (pcb_export_drill_cmd (H := violations_env) PCB_PATH DRILL_FILES_PATH)
       [Print (nl +:+ "ERROR: Drill file export from the PCB failed with an unexpected exit code (5)")]).
Proof.
  apply (nonzero_status_generic (H := violations_env)
           (PcbExportDrill PCB_PATH DRILL_FILES_PATH) empty_world 5);
    [reflexivity | discriminate | left; reflexivity].
Defined.

(** ** Sequencing of the release *)

Lemma grows_ret {A} (a : A) : grows (ret a).
Proof. intros w. exists []. cbn. by rewrite app_nil_r. Qed.

Lemma grows_raise {A} (e : exn) : grows (@raise A e).
Proof. intros w. exists []. cbn. by rewrite app_nil_r. Qed.

Lemma grows_lift {A} (r : result A) : grows (lift r).
Proof. intros w. exists []. cbn. by rewrite app_nil_r. Qed.

Lemma grows_log (e : event) : grows (log e).
Proof. intros w. by exists [e]. Qed.

Lemma grows_get_fs : grows get_fs.
Proof. intros w. exists []. cbn. by rewrite app_nil_r. Qed.

Lemma grows_put_fs f : grows (put_fs f).
Proof. intros w. exists []. cbn. by rewrite app_nil_r. Qed.

Lemma grows_bind {A B} (m : M A) (k : A → M B) :
  grows m → (∀ a, grows (k a)) → grows (bind m k).
Proof.
  intros Hm Hk w. unfold bind. destruct (Hm w) as [evs Hevs].
  destruct (m w) as [[a|e] w1]; cbn [snd] in *.
  - destruct (Hk a w1) as [evs' Hevs']. exists (evs ++ evs').
    by rewrite Hevs', Hevs, app_assoc.
  - by exists evs.
Qed.

Lemma grows_for {A} (xs : list A) (body : A → M unit) :
  (∀ x, grows (body x)) → grows (for_ xs body).
Proof.
  intros Hb. induction xs as [|x xs IH]; cbn [for_].
  - apply grows_ret.
  - apply grows_bind; auto.
Qed.

Create HintDb grows.
#[local] Hint Resolve grows_ret grows_raise grows_lift grows_log grows_get_fs
  grows_put_fs grows_bind grows_for : grows.

Lemma grows_try_except {A} (body : M A) (handler : exn → M A) :
  grows body → (∀ e, grows (handler e)) → grows (try_except body handler).
Proof.
  intros Hb Hh w. unfold try_except. destruct (Hb w) as [evs Hevs].
  destruct (body w) as [[a|e] w1]; cbn [snd] in *.
  - by exists evs.
  - destruct (Hh e w1) as [evs' Hevs']. exists (evs ++ evs').
    by rewrite Hevs', Hevs, app_assoc.
Qed.

Lemma grows_os_mkdir d : grows (os_mkdir d).
Proof.
  unfold os_mkdir. apply grows_bind; [auto with grows|]. intros f.
  destruct (lstat f d); [auto with grows|].
  destruct (list_find _ _) as [[i a]|]; [destruct (stat f a)|]; auto with grows.
Qed.

Lemma grows_exist_ok (d : path) (e : exn) :
  grows (do f <- get_fs ; if is_dir f d then ret tt else raise e).
Proof.
  apply grows_bind; [auto with grows|]. intros f.
  destruct (is_dir f d); auto with grows.
Qed.

Lemma grows_mkdir_leaf d : grows (mkdir_leaf d).
Proof.
  unfold mkdir_leaf. apply grows_try_except; [apply grows_os_mkdir|].
  intros e. destruct e; auto using grows_exist_ok with grows.
Qed.

Lemma grows_mkdir_parents_rev rd : grows (mkdir_parents_rev rd).
Proof.
  induction rd as [|c rd IH]; cbn [mkdir_parents_rev];
    (apply grows_try_except; [apply grows_os_mkdir|]);
    intros e; destruct e; auto using grows_exist_ok, grows_mkdir_leaf with grows.
Qed.

Lemma grows_ensure_dir p : grows (ensure_dir p).
Proof.
  unfold ensure_dir. apply grows_bind; [auto with grows|]. intros f.
  destruct (resolve f (parent p)); [apply grows_mkdir_parents_rev|auto with grows].
Qed.

Lemma grows_save p content : grows (save p content).
Proof.
  unfold save. apply grows_bind; [auto with grows|]. intros _.
  apply grows_bind; [auto with grows|]. intros f.
  destruct (lstat f p) as [[| |t|]|]; auto with grows.
Qed.

(** [svg_to_png] first announces itself on the console. *)
Lemma svg_to_png_announces `{Env} svg_path png_path scale dpi alpha w :
  ∃ evs, out (snd (svg_to_png svg_path png_path scale dpi alpha w))
         = out w ++ Print ("Generating " +:+ str png_path +:+ " from "
                              +:+ str svg_path +:+ "...") :: evs.
Proof.
  unfold svg_to_png. rewrite print_bind.
  match goal with |- context [?m (mkWorld ?f ?o)] =>
    assert (Hg : grows m); [|destruct (Hg (mkWorld f o)) as [evs Hevs]] end.
  - apply grows_bind; [destruct (_ && _); auto with grows|]. intros _.
    apply grows_bind; [auto with grows|]. intros _.
    apply grows_bind; [auto with grows|]. intros f.
    destruct (svg2rlg f svg_path); [|auto with grows].
    apply grows_bind; [destruct scale; auto with grows|]. intros scaled.
    apply grows_bind; [auto with grows|]. intros _.
    apply grows_bind; [auto with grows|]. intros _.
    apply grows_bind; [apply grows_ensure_dir|]. intros _. apply grows_save.
  - exists evs. rewrite Hevs. cbn [out]. by rewrite <- app_assoc.
Qed.

Lemma exec_logs `{Env} (c : tool_call) (w : World) :
  (length (out w) < length (out (snd (exec c w))))%nat.
Proof.
  rewrite exec_unfold. cbn zeta.
  destruct (_ =? 0)%Z; [|destruct (is_rule_check c && _); [destruct c|]];
    cbn [snd finished out]; rewrite !length_app; cbn [length]; lia.
Qed.

Lemma release_plan_logs `{Env} (s : M unit) (w : World) :
  s ∈ release_plan → (length (out w) < length (out (snd (s w))))%nat.
Proof.
  unfold release_plan, release_steps. cbn [app].
  rewrite !elem_of_cons, elem_of_nil.
  intros Hs.
  repeat (destruct Hs as [-> | Hs]);
    try contradiction;
    try (match goal with
         | |- context [svg_to_png ?a ?b ?c ?d ?e w] =>
             destruct (svg_to_png_announces a b c d e w) as [evs ->]
         end;
         rewrite length_app; cbn [length]; lia).
  - apply (exec_logs KicadVersion).
  - apply (exec_logs (SchematicErc _ _)).
  - apply (exec_logs (PcbDrc _ _)).
  - apply (exec_logs (SchematicExportPdf _ _)).
  - apply (exec_logs (SchematicExportSvg _ _)).
  - apply (exec_logs (SchematicExportBom _ _)).
  - apply (exec_logs (PcbExportGerbers _ _ _)).
  - apply (exec_logs (PcbExportDrill _ _)).
  - apply (exec_logs (PcbExportIpcd356 _ _)).
  - apply (exec_logs (PcbExportPdf _ _ _ _ _ _)).
  - apply (exec_logs (PcbExportPdf _ _ _ _ _ _)).
  - apply (exec_logs (PcbExportPos _ _)).
Qed.

Ltac step_through :=
  repeat match goal with
         | |- context [match ?m ?w with _ => _ end] =>
             destruct (m w) as [[[]|?] ?]; try reflexivity
         end.

(** The body of [release] runs [release_steps] in order. *)
Lemma release_steps_run `{Env} (w : World) :
  release w = for_ release_steps (λ t, t) w.
Proof.
  unfold release, release_steps. cbn [for_]. unfold bind, ret. step_through.
Qed.

(** [invoke release] runs [release_plan] in order. *)
Lemma release_plan_run `{Env} (w : World) :
  release_task w = for_ release_plan (λ t, t) w.
Proof.
  unfold release_task, task_call, release_plan, check, env.
  cbn [for_ app]. unfold bind, ret.
  destruct (kicad_version w) as [[[]|?] w1]; [|reflexivity].
  destruct (schematic_erc SCH_PATH ERC_REPORT_PATH w1) as [[[]|?] w2]; [|reflexivity].
  destruct (pcb_drc PCB_PATH DRC_REPORT_PATH w2) as [[[]|?] w3]; [|reflexivity].
  apply release_steps_run.
Qed.

(** C2. [invoke release] runs the version query, then the two rule checks,
    then the export steps of the body, in this order, and stops at the first
    of them that raises: the run ends with that exception in the very world
    the failing step left.  Every step logs something when it is run, so none
    of the later steps was run; in particular no export step runs when a rule
    check fails. *)
Theorem release_stops_at_first_failure `{Env}
    (done todo : list (M unit)) (step : M unit) (w w1 w2 : World) (e : exn) :
  release_plan = done ++ step :: todo →
  for_ done (λ t, t) w = (Ok tt, w1) →
  step w1 = (Raise e, w2) →
  release_task w = (Raise e, w2)
  ∧ release_plan = [env; schematic_erc SCH_PATH ERC_REPORT_PATH;
                    pcb_drc PCB_PATH DRC_REPORT_PATH] ++ release_steps
  ∧ (∀ s w0, s ∈ release_plan →
       (length (out w0) < length (out (snd (s w0))))%nat).
Proof.
  intros Hplan Hdone Hstep. split; [|split].
  - rewrite release_plan_run, Hplan.
    apply for_app_raise with (w1 := w1); assumption.
  - reflexivity.
  - intros s w0. apply release_plan_logs.
Qed.

Lemma release_stops_at_first_failure_witness :
  fst (release_task (H := erc_fails_env) empty_world) = Raise (UnexpectedExit 5)
  ∧ runs (out (snd (release_task (H := erc_fails_env) empty_world)))
    = [Run (kicad_version_cmd (H := erc_fails_env));
       Run (schematic_erc_cmd (H := erc_fails_env) SCH_PATH ERC_REPORT_PATH)].
Proof.
  destruct (release_stops_at_first_failure (H := erc_fails_env)
              [env (H := erc_fails_env)]
              (pcb_drc (H := erc_fails_env) PCB_PATH DRC_REPORT_PATH
                 :: release_steps (H := erc_fails_env))
              (schematic_erc (H := erc_fails_env) SCH_PATH ERC_REPORT_PATH)
              empty_world
              (snd (env (H := erc_fails_env) empty_world))
              (snd (schematic_erc (H := erc_fails_env) SCH_PATH ERC_REPORT_PATH
                      (snd (env (H := erc_fails_env) empty_world))))
              (UnexpectedExit 5)) as [Hrun _].
  - reflexivity.
  - reflexivity.
  - reflexivity.
  - rewrite Hrun. split; reflexivity.
Defined.

(** ** Paths *)

Lemma Path_named (s : string) : Path s ≠ [] → name (Path s) ≠ "".
Proof.
  unfold name, Path. intros Hne.
  destruct (exists_last Hne) as (l' & a & Hl). rewrite Hl, last_last.
  assert (Ha : In a (List.filter keep_part (split_on "/" s))).
  { rewrite Hl. apply in_or_app. right. left. reflexivity. }
  apply filter_In in Ha as [_ Ha]. intros ->. discriminate.
Qed.

Lemma lstat_None_named (f : gmap path node) (s : string) :
  lstat f (Path s) = None → name (Path s) ≠ "".
Proof.
  intros Hl. apply Path_named. intros E. rewrite E in Hl. discriminate.
Qed.

(** ** File system primitives *)

Lemma stat_no_link (f : gmap path node) (p : path) :
  (∀ t, lstat f p ≠ Some (Symlink t)) → stat f p = lstat f p.
Proof.
  unfold stat. cbn [stat_fuel]. intros Hl.
  destruct (lstat f p) as [[| |t|]|]; try reflexivity. by destruct (Hl t).
Qed.

Lemma lstat_lookup (f : gmap path node) (p : path) :
  p ≠ [] → lstat f p = f !! p.
Proof. by destruct p. Qed.

Lemma without_tree_lookup (p q : path) (f : gmap path node) :
  without_tree p f !! q = if decide (p `prefix_of` q) then None else f !! q.
Proof.
  unfold without_tree. apply option_eq. intros x.
  rewrite map_lookup_filter_Some. cbn [fst].
  destruct (decide (p `prefix_of` q)); split; intros; destruct_and?;
    done || congruence.
Qed.

Lemma removed_subseteq (p : path) (f : gmap path node) : removed p f ⊆ f.
Proof.
  unfold removed.
  destruct (lstat f p) as [[| |t|]|]; try reflexivity;
    try apply delete_subseteq. apply map_filter_subseteq.
Qed.

(** Removing [p] changes nothing outside the tree of [p]. *)
Lemma removed_outside (p q : path) (f : gmap path node) :
  ¬ p `prefix_of` q → removed p f !! q = f !! q.
Proof.
  intros Hq. assert (p ≠ q) by (intros ->; by apply Hq).
  unfold removed.
  destruct (lstat f p) as [[| |t|]|]; try reflexivity;
    try (by apply lookup_delete_ne).
  rewrite without_tree_lookup. by case_decide.
Qed.

(** A file, a link or a directory is gone after its removal. *)
Lemma removed_gone (p : path) (f : gmap path node) :
  p ≠ [] → lstat f p ≠ Some Other → removed p f !! p = None.
Proof.
  intros Hp Ho. unfold removed.
  destruct (lstat f p) as [[| |t|]|] eqn:E; try apply lookup_delete_eq.
  - rewrite without_tree_lookup. by case_decide.
  - contradiction.
  - by rewrite <- lstat_lookup.
Qed.

(** With a directory goes everything below it. *)
Lemma removed_tree_gone (p q : path) (f : gmap path node) :
  lstat f p = Some Dir → p `prefix_of` q → removed p f !! q = None.
Proof.
  intros Hd Hq. unfold removed. rewrite Hd, without_tree_lookup. by case_decide.
Qed.

Lemma removed_absent (p : path) (f : gmap path node) :
  lstat f p = None → removed p f = f.
Proof. unfold removed. by intros ->. Qed.

(** ** [rm] *)

Lemma world_eta (w : World) : mkWorld (fs w) (out w) = w.
Proof. by destruct w. Qed.

(** With [force], the [try] statement swallows every exception. *)
Lemma rm_guarded_force (q : path) (recursive : bool) (w : World) :
  fst (rm_guarded q recursive true w) = Ok tt.
Proof.
  unfold rm_guarded, try_except.
  destruct (rm_entry q recursive true w) as [[[]|e] w']; [reflexivity|].
  destruct e; reflexivity.
Qed.

(** What [rm] does to one path that is no directory and no link. *)
Lemma rm_entry_absent (p : path) (recursive force : bool) (w : World) :
  lstat (fs w) p = None →
  rm_entry p recursive force w =
  if force then (Ok tt, w)
  else (Raise (OSError ("Unknown file type: '" +:+ str p +:+ "'")), w).
Proof.
  intros Hl. unfold rm_entry, bind, get_fs, is_symlink, is_file, is_dir.
  rewrite stat_no_link by (rewrite Hl; discriminate). rewrite Hl. cbn.
  by destruct force.
Qed.

Lemma rm_entry_link (p t : path) (recursive force : bool) (w : World) :
  lstat (fs w) p = Some (Symlink t) →
  rm_entry p recursive force w = (Ok tt, mkWorld (delete p (fs w)) (out w)).
Proof.
  intros Hl. unfold rm_entry, bind, get_fs, is_symlink. rewrite Hl. cbn.
  unfold unlink, bind, get_fs. by rewrite Hl.
Qed.

Lemma rm_entry_file (p : path) (c : string) (recursive force : bool) (w : World) :
  lstat (fs w) p = Some (File c) →
  rm_entry p recursive force w = (Ok tt, mkWorld (delete p (fs w)) (out w)).
Proof.
  intros Hl. unfold rm_entry, bind, get_fs, is_symlink, is_file.
  rewrite stat_no_link by (rewrite Hl; discriminate). rewrite Hl. cbn.
  unfold unlink, bind, get_fs. by rewrite Hl.
Qed.

Lemma rm_entry_other (p : path) (recursive force : bool) (w : World) :
  lstat (fs w) p = Some Other →
  rm_entry p recursive force w =
  if force then (Ok tt, w)
  else (Raise (OSError ("Unknown file type: '" +:+ str p +:+ "'")), w).
Proof.
  intros Hl. unfold rm_entry, bind, get_fs, is_symlink, is_file, is_dir.
  rewrite stat_no_link by (rewrite Hl; discriminate). rewrite Hl. cbn.
  by destruct force.
Qed.

Lemma rm_entry_dir (p : path) (recursive force : bool) (w : World) :
  lstat (fs w) p = Some Dir →
  rm_entry p recursive force w =
  if recursive then rmtree p force w
  else (Raise (IsADirectoryError
                 ("Cannot remove directory '" +:+ str p +:+ "' without recursive=True")),
        w).
Proof.
  intros Hl. unfold rm_entry, bind, get_fs, is_symlink, is_file, is_dir.
  rewrite stat_no_link by (rewrite Hl; discriminate). rewrite Hl. cbn.
  by destruct recursive.
Qed.

(** [rm(p, recursive=True, force=True)] of one path. *)
Lemma rm_guarded_rf (p : path) (w : World) :
  rm_guarded p true true w = (Ok tt, mkWorld (removed p (fs w)) (out w)).
Proof.
  unfold rm_guarded, try_except, removed.
  destruct (lstat (fs w) p) as [[c| |t|]|] eqn:Hl.
  - by rewrite (rm_entry_file p c).
  - rewrite rm_entry_dir by done. unfold rmtree, bind, get_fs, put_fs.
    rewrite Hl. by destruct p.
  - by rewrite (rm_entry_link p t).
  - rewrite rm_entry_other by done. by rewrite world_eta.
  - rewrite rm_entry_absent by done. by rewrite world_eta.
Qed.

(** Without globbing, [rm] is its [try] statement run once, for the path. *)
Lemma rm_one `{Env} (s : string) (recursive force : bool) (w : World) :
  rm s recursive force false w = rm_guarded (Path s) recursive force w.
Proof.
  unfold rm, bind, get_fs. cbn [gen_of_list for_gen].
  by destruct (rm_guarded (Path s) recursive force w) as [[[]|e] w'].
Qed.

(** With globbing, [rm] runs its [try] statement for what the generator
    yields. *)
Lemma rm_glob `{Env} (s : string) (recursive force : bool) (w : World) :
  rm s recursive force true w =
  for_gen (glob (parent (Path s)) (name (Path s)) (fs w))
    (λ q, rm_guarded q recursive force) w.
Proof. reflexivity. Qed.

Lemma rm_rf `{Env} (s : string) (w : World) :
  rm s true true false w = (Ok tt, mkWorld (removed (Path s) (fs w)) (out w)).
Proof. rewrite rm_one. apply rm_guarded_rf. Qed.

Lemma rm_guarded_world (q : path) (recursive force : bool) (w : World) :
  snd (rm_guarded q recursive force w) = snd (rm_entry q recursive force w).
Proof.
  unfold rm_guarded, try_except.
  destruct (rm_entry q recursive force w) as [[[]|e] w']; [reflexivity|].
  destruct e, force; reflexivity.
Qed.

(** Without [recursive], no directory is deleted, whichever path is visited. *)
Lemma rm_guarded_keeps_dir (p q : path) (force : bool) (w : World) :
  lstat (fs w) p = Some Dir →
  lstat (fs (snd (rm_guarded q false force w))) p = Some Dir.
Proof.
  intros Hp. rewrite rm_guarded_world.
  assert (Hdel : lstat (fs w) q ≠ Some Dir → lstat (delete q (fs w)) p = Some Dir).
  { intros Hq. destruct p as [|a p]; [reflexivity|].
    cbn [lstat] in *. rewrite lookup_delete_ne; [done|]. intros ->.
    by apply Hq. }
  destruct (lstat (fs w) q) as [[c| |t|]|] eqn:Hq.
  - rewrite (rm_entry_file q c) by done. by apply Hdel.
  - by rewrite rm_entry_dir.
  - rewrite (rm_entry_link q t) by done. by apply Hdel.
  - rewrite rm_entry_other by done. by destruct force.
  - rewrite rm_entry_absent by done. by destruct force.
Qed.

Lemma for_rm_keeps_dir (p : path) (paths : gen) (force : bool) (w : World) :
  lstat (fs w) p = Some Dir →
  lstat (fs (snd (for_gen paths (λ q, rm_guarded q false force) w))) p = Some Dir.
Proof.
  revert w. induction paths as [|e|q next IH]; intros w Hp; cbn [for_gen]; [done..|].
  pose proof (rm_guarded_keeps_dir p q force w Hp) as Hq.
  destruct (rm_guarded q false force w) as [[[]|e] w']; cbn [snd] in *; auto.
Qed.

(** C3 (amended). For a path that is a directory (not a link to one), [rm]
    without [recursive] never deletes the directory, whatever [force] and
    [use_glob] are.  With [force=False] (and no globbing) it raises
    [IsADirectoryError], the condition that asks for [recursive=True]; with
    [force=True] the handler of [rm] suppresses that exception and the call
    returns normally. *)
Theorem rm_dir_needs_recursive `{Env} (s : string) (w : World) :
  lstat (fs w) (Path s) = Some Dir →
  rm s false false false w =
    (Raise (IsADirectoryError
              ("Cannot remove directory '" +:+ str (Path s)
                 +:+ "' without recursive=True")), w)
  ∧ rm s false true false w = (Ok tt, w)
  ∧ (∀ force use_glob,
       lstat (fs (snd (rm s false force use_glob w))) (Path s) = Some Dir).
Proof.
  intros Hd. split; [|split].
  - rewrite rm_one. unfold rm_guarded, try_except. by rewrite rm_entry_dir.
  - rewrite rm_one. unfold rm_guarded, try_except. by rewrite rm_entry_dir.
  - intros force use_glob. destruct use_glob.
    + rewrite rm_glob. by apply for_rm_keeps_dir.
    + rewrite rm_one. by apply rm_guarded_keeps_dir.
Qed.

Lemma rm_dir_needs_recursive_witness :
  lstat (fs build_world) (Path "build") = Some Dir
  ∧ rm (H := violations_env) "build" false false false build_world =
    (Raise (IsADirectoryError "Cannot remove directory 'build' without recursive=True"),
     build_world).
Proof.
  split; [reflexivity|].
  apply (rm_dir_needs_recursive (H := violations_env) "build" build_world).
  reflexivity.
Defined.

(** C3, as stated, fails: with [force=True] the call on an existing directory
    returns normally. *)
Lemma rm_dir_force_returns :
  lstat (fs build_world) (Path "build") = Some Dir
  ∧ rm (H := violations_env) "build" false true false build_world
    = (Ok tt, build_world).
Proof. split; reflexivity. Qed.

(** With [force], the loop of [rm] ends by an exception only if the generator
    it iterates over raises it. *)
Lemma for_rm_force (paths : gen) (recursive : bool) (w : World) :
  fst (for_gen paths (λ q, rm_guarded q recursive true) w) = Ok tt
  ∨ ∃ e, fst (for_gen paths (λ q, rm_guarded q recursive true) w) = Raise e
         ∧ raises paths e.
Proof.
  revert w. induction paths as [|e|q next IH]; intros w; cbn [for_gen].
  - by left.
  - right. exists e. split; [done|constructor].
  - pose proof (rm_guarded_force q recursive w) as Hq.
    destruct (rm_guarded q recursive true w) as [[[]|e] w']; [|done].
    destruct (IH (fs w') w') as [Hok|(e & He & Hr)]; [by left|].
    right. exists e. split; [done|]. by apply (raises_later _ _ (fs w')).
Qed.

Lemma never_raises_not_raises (paths : gen) (e : exn) :
  never_raises paths → ¬ raises paths e.
Proof.
  intros Hn Hr. induction Hr as [e|p next f e Hr IH].
  - inversion Hn.
  - inversion Hn as [|p' next' Hall]; subst. by apply IH.
Qed.

(** C4 (amended). For a path that does not exist, [rm] with [force=True]
    and without globbing returns normally, whatever [recursive] is.  With
    [use_glob] the pattern is not empty, and the call returns normally when
    the generator behind [Path.glob] runs to its end; an exception that
    leaves [rm] is one the generator raised: the [for] statement iterates it
    outside the [try] statement, so [force] does not cover it. *)
Theorem rm_force_absent `{Env} (s : string) (recursive : bool) (w : World) :
  lstat (fs w) (Path s) = None →
  let paths := glob_select (fs w) (parent (Path s)) (name (Path s)) in
  fst (rm s recursive true false w) = Ok tt
  ∧ (never_raises paths → fst (rm s recursive true true w) = Ok tt)
  ∧ (∀ e, fst (rm s recursive true true w) = Raise e → raises paths e).
Proof.
  intros Hl paths.
  assert (Hg : glob (parent (Path s)) (name (Path s)) (fs w) = paths).
  { unfold glob. pose proof (lstat_None_named _ _ Hl) as Hn.
    by destruct (String.eqb_spec (name (Path s)) ""). }
  split; [|split].
  - rewrite rm_one. apply rm_guarded_force.
  - intros Hn. rewrite rm_glob, Hg.
    destruct (for_rm_force paths recursive w) as [Hok|(e & _ & Hr)]; [done|].
    by destruct (never_raises_not_raises paths e).
  - intros e He. rewrite rm_glob, Hg in He.
    destruct (for_rm_force paths recursive w) as [Hok|(e' & He' & Hr)];
      congruence.
Qed.

Lemma rm_force_absent_witness :
  lstat (fs build_world) (Path "dist/*.zip") = None
  ∧ fst (rm (H := violations_env) "dist/*.zip" true true false build_world) = Ok tt
  ∧ fst (rm (H := violations_env) "dist/*.zip" true true true build_world) = Ok tt.
Proof.
  split; [reflexivity|].
  destruct (rm_force_absent (H := violations_env) "dist/*.zip" true build_world)
    as (H1 & H2 & _); [reflexivity|].
  split; [exact H1|]. apply H2. vm_compute. constructor.
Defined.

(** C4, as the claim has it, fails: the path [a**b] does not exist, and [rm]
    with [force=True] and [use_glob=True] raises the [ValueError] with which
    pathlib rejects the pattern. *)
Lemma rm_force_glob_raises :
  lstat (fs build_world) (Path "a**b") = None
  ∧ rm (H := violations_env) "a**b" true true true build_world
    = (Raise (ValueError "Invalid pattern: '**' can only be an entire path component"),
       build_world).
Proof. split; reflexivity. Qed.

(** C10. For a path that is a symbolic link, also one that points to a
    directory, [rm] unlinks the link and nothing else, whatever [recursive]
    and [force] are: the link test comes before the directory test, so
    [shutil.rmtree] is not reached.  The same holds for every path the loop of
    [rm] visits. *)
Theorem rm_link_only `{Env} (s : string) (t : path) (recursive force : bool) (w : World) :
  lstat (fs w) (Path s) = Some (Symlink t) →
  rm s recursive force false w = (Ok tt, mkWorld (delete (Path s) (fs w)) (out w))
  ∧ rm_guarded (Path s) recursive force w
    = (Ok tt, mkWorld (delete (Path s) (fs w)) (out w))
  ∧ (∀ q, q ≠ Path s → delete (Path s) (fs w) !! q = fs w !! q).
Proof.
  intros Hl.
  assert (Hg : rm_guarded (Path s) recursive force w
               = (Ok tt, mkWorld (delete (Path s) (fs w)) (out w))).
  { unfold rm_guarded, try_except. by rewrite (rm_entry_link _ t). }
  split; [|split].
  - by rewrite rm_one.
  - exact Hg.
  - intros q Hq. by apply lookup_delete_ne.
Qed.

Lemma rm_link_only_witness :
  lstat (fs build_world) (Path "latest") = Some (Symlink ["build"])
  ∧ is_dir (fs build_world) (Path "latest") = true
  ∧ rm (H := violations_env) "latest" true false false build_world
    = (Ok tt, mkWorld (<[ ["build"] := Dir ]>
                       (<[ ["build"; "a.txt"] := File "a" ]> ∅)) []).
Proof.
  split; [reflexivity|]. split; [reflexivity|].
  destruct (rm_link_only (H := violations_env) "latest" ["build"] true false
              build_world) as [Hrm _]; [reflexivity|].
  rewrite Hrm. reflexivity.
Defined.

(** ** [clean] *)

Ltac no_prefix :=
  let k := fresh "k" in
  let Hk := fresh "Hk" in
  intros [k Hk]; vm_compute in Hk; discriminate Hk.

Ltac nonempty := vm_compute; discriminate.

Lemma output_not_in_backups : ¬ OUTPUT_PATH `prefix_of` Path (PROJECT_NAME +:+ "-backups").
Proof. no_prefix. Qed.

Lemma output_not_in_cache : ¬ OUTPUT_PATH `prefix_of` Path "fp-info-cache".
Proof. no_prefix. Qed.

Lemma backups_not_in_cache :
  ¬ Path (PROJECT_NAME +:+ "-backups") `prefix_of` Path "fp-info-cache".
Proof. no_prefix. Qed.

(** Two trees with different first components share no path. *)
Lemma prefix_of_head (a b : string) (p p' q : path) :
  a ≠ b → (a :: p) `prefix_of` q → ¬ (b :: p') `prefix_of` q.
Proof. intros Hab [k ->] [k' Hk']. cbn in Hk'. congruence. Qed.

Lemma clean_no_flags_world `{Env} (w : World) :
  clean false false false w = (Ok tt, mkWorld (removed OUTPUT_PATH (fs w)) (out w)).
Proof.
  unfold clean. cbn [clean_paths orb for_]. unfold bind, ret.
  rewrite rm_rf. reflexivity.
Qed.

(** C7. [clean] with all flags false hands exactly one path to [rm], the
    output root.  The call returns normally and changes nothing outside the
    tree of the output root; in particular the backups directory and the
    cache file, with everything below them, are as before.  An output
    directory is removed with all it contains. *)
Theorem clean_default `{Env} (w : World) :
  let w' := snd (clean false false false w) in
  clean_paths false false false = [str OUTPUT_PATH]
  ∧ Path (str OUTPUT_PATH) = OUTPUT_PATH
  ∧ fst (clean false false false w) = Ok tt
  ∧ out w' = out w
  ∧ (∀ q, ¬ OUTPUT_PATH `prefix_of` q → fs w' !! q = fs w !! q)
  ∧ (∀ q, Path (PROJECT_NAME +:+ "-backups") `prefix_of` q
          ∨ Path "fp-info-cache" `prefix_of` q →
          fs w' !! q = fs w !! q)
  ∧ (lstat (fs w) OUTPUT_PATH = Some Dir →
     ∀ q, OUTPUT_PATH `prefix_of` q → fs w' !! q = None).
Proof.
  cbn zeta. rewrite clean_no_flags_world. cbn [fst snd fs out].
  repeat split.
  - intros q Hq. by apply removed_outside.
  - intros q Hq. apply removed_outside. intros Ho.
    destruct Hq as [Hq|Hq]; revert Ho;
      refine (prefix_of_head _ _ _ _ _ _ Hq); discriminate.
  - intros Hd q Hq. by apply removed_tree_gone.
Qed.

Lemma clean_everything_world `{Env} (kicad_backups kicad_cache_files : bool) (w : World) :
  clean kicad_backups kicad_cache_files true w =
  (Ok tt,
   mkWorld (removed (Path "fp-info-cache")
              (removed (Path (PROJECT_NAME +:+ "-backups"))
                 (removed OUTPUT_PATH (fs w))))
           (out w)).
Proof.
  unfold clean, clean_paths. rewrite !orb_true_r. cbn [app for_].
  unfold bind, ret. rewrite !rm_rf. reflexivity.
Qed.

(** C8. [clean] with [all=True] hands exactly three paths to [rm], the output
    root, the backups directory and the cache path, each with
    [recursive=True] and [force=True].  The call always returns normally, and
    leaves the world as it was when none of the three exists.  Each of them
    that is a file, a link or a directory is gone afterwards, a directory with
    all it contains, and nothing outside the three trees changes. *)
Theorem clean_all `{Env} (kicad_backups kicad_cache_files : bool) (w : World) :
  let targets := [str OUTPUT_PATH; PROJECT_NAME +:+ "-backups"; "fp-info-cache"] in
  let w' := snd (clean kicad_backups kicad_cache_files true w) in
  clean_paths kicad_backups kicad_cache_files true = targets
  ∧ clean kicad_backups kicad_cache_files true w
    = for_ targets (λ t, rm t true true false) w
  ∧ fst (clean kicad_backups kicad_cache_files true w) = Ok tt
  ∧ ((∀ t, t ∈ targets → lstat (fs w) (Path t) = None) →
     clean kicad_backups kicad_cache_files true w = (Ok tt, w))
  ∧ (∀ t, t ∈ targets → lstat (fs w) (Path t) ≠ Some Other →
          fs w' !! Path t = None)
  ∧ (∀ t q, t ∈ targets → lstat (fs w) (Path t) = Some Dir →
            Path t `prefix_of` q → fs w' !! q = None)
  ∧ (∀ q, (∀ t, t ∈ targets → ¬ Path t `prefix_of` q) → fs w' !! q = fs w !! q).
Proof.
  cbn zeta.
  assert (Hpaths : clean_paths kicad_backups kicad_cache_files true
                   = [str OUTPUT_PATH; PROJECT_NAME +:+ "-backups"; "fp-info-cache"]).
  { unfold clean_paths. by rewrite !orb_true_r. }
  split; [exact Hpaths|]. split; [unfold clean; by rewrite Hpaths|].
  rewrite clean_everything_world. cbn [fst snd fs out].
  set (A := OUTPUT_PATH).
  set (B := Path (PROJECT_NAME +:+ "-backups")).
  set (C := Path "fp-info-cache").
  set (f := fs w). set (f1 := removed A f). set (f2 := removed B f1).
  assert (HAB : lstat f1 B = lstat f B).
  { rewrite !lstat_lookup by nonempty.
    apply removed_outside, output_not_in_backups. }
  assert (HAC : lstat f2 C = lstat f C).
  { rewrite !lstat_lookup by nonempty. unfold f2, f1.
    rewrite !removed_outside;
      auto using output_not_in_cache, backups_not_in_cache. }
  assert (Hsub1 : removed C f2 ⊆ f2) by apply removed_subseteq.
  assert (Hsub2 : f2 ⊆ f1) by apply removed_subseteq.
  assert (Hin : ∀ (P : string → Prop),
            P (str A) → P (PROJECT_NAME +:+ "-backups") → P "fp-info-cache" →
            ∀ t, t ∈ [str A; PROJECT_NAME +:+ "-backups"; "fp-info-cache"] → P t).
  { intros P HA HB HC t. rewrite !elem_of_cons, elem_of_nil.
    intros [-> | [-> | [-> | []]]]; assumption. }
  split; [reflexivity|]. split; [|split; [|split]].
  - intros Hnone.
    assert (HA : lstat f A = None) by (apply (Hnone (str A)); set_solver).
    assert (HB : lstat f B = None).
    { apply (Hnone (PROJECT_NAME +:+ "-backups")); set_solver. }
    assert (HC : lstat f C = None) by (apply (Hnone "fp-info-cache"); set_solver).
    assert (E1 : f1 = f) by (by apply removed_absent).
    assert (E2 : f2 = f).
    { unfold f2. rewrite E1. by apply removed_absent. }
    rewrite (removed_absent C f2) by (by rewrite E2).
    rewrite E2. unfold f. by rewrite world_eta.
  - apply (Hin (λ t, lstat f (Path t) ≠ Some Other →
                      removed C f2 !! Path t = None)).
    + intros Ho. change (Path (str A)) with A in *.
      eapply lookup_weaken_None; [|exact Hsub1].
      eapply lookup_weaken_None; [|exact Hsub2].
      apply removed_gone; [nonempty | done].
    + fold B. intros Ho.
      eapply lookup_weaken_None; [|exact Hsub1].
      apply removed_gone; [nonempty | by rewrite HAB].
    + fold C. intros Ho. apply removed_gone; [nonempty | by rewrite HAC].
  - intros t q Ht. revert t Ht q.
    apply (Hin (λ t, ∀ q, lstat f (Path t) = Some Dir → Path t `prefix_of` q →
                          removed C f2 !! q = None)).
    + intros q Hd Hq. change (Path (str A)) with A in *.
      eapply lookup_weaken_None; [|exact Hsub1].
      eapply lookup_weaken_None; [|exact Hsub2].
      by apply removed_tree_gone.
    + fold B. intros q Hd Hq.
      eapply lookup_weaken_None; [|exact Hsub1].
      apply removed_tree_gone; [by rewrite HAB | done].
    + fold C. intros q Hd Hq. apply removed_tree_gone; [by rewrite HAC | done].
  - intros q Hq. unfold f2, f1.
    rewrite !removed_outside; [done | | |].
    + apply (Hq (str A)). set_solver.
    + apply (Hq (PROJECT_NAME +:+ "-backups")). set_solver.
    + apply (Hq "fp-info-cache"). set_solver.
Qed.

(** ** [svg_to_png] *)

(** C5. When both [scale] and [dpi] are given, [svg_to_png] raises
    [ValueError] right after announcing itself: no library of the conversion
    is called, and the file system, with it the destination file, is as
    before. *)
Theorem svg_to_png_scale_and_dpi `{Env} (svg_path png_path : path)
    (scale : num) (dpi : Z) (alpha : bool) (w : World) :
  svg_to_png svg_path png_path (Some scale) (Some dpi) alpha w =
    (Raise (ValueError "Cannot specify both scale and dpi"),
     mkWorld (fs w)
       (out w ++ [Print ("Generating " +:+ str png_path +:+ " from "
                           +:+ str svg_path +:+ "...")]))
  ∧ fs (snd (svg_to_png svg_path png_path (Some scale) (Some dpi) alpha w)) = fs w
  ∧ lstat (fs (snd (svg_to_png svg_path png_path (Some scale) (Some dpi) alpha w)))
      png_path = lstat (fs w) png_path.
Proof.
  assert (E : svg_to_png svg_path png_path (Some scale) (Some dpi) alpha w =
    (Raise (ValueError "Cannot specify both scale and dpi"),
     mkWorld (fs w)
       (out w ++ [Print ("Generating " +:+ str png_path +:+ " from "
                           +:+ str svg_path +:+ "...")]))) by reflexivity.
  rewrite E. repeat split.
Qed.

(** ** Binary64 rounding *)

Section Binary64.
Local Open Scope Z_scope.

Lemma digits2_pos_bounds (p : positive) :
  2 ^ (Z.pos (digits2_pos p) - 1) ≤ Z.pos p < 2 ^ Z.pos (digits2_pos p).
Proof.
  induction p as [p IH|p IH|]; cbn [digits2_pos]; [| |by compute].
  - rewrite Pos2Z.inj_succ, (Pos2Z.inj_xI p).
    replace (Z.succ (Z.pos (digits2_pos p)) - 1) with (Z.succ (Z.pos (digits2_pos p) - 1)) by lia.
    rewrite !Z.pow_succ_r by lia. lia.
  - rewrite Pos2Z.inj_succ, (Pos2Z.inj_xO p).
    replace (Z.succ (Z.pos (digits2_pos p)) - 1) with (Z.succ (Z.pos (digits2_pos p) - 1)) by lia.
    rewrite !Z.pow_succ_r by lia. lia.
Qed.

Lemma digits2_pos_unique (p : positive) (k : Z) :
  2 ^ (k - 1) ≤ Z.pos p < 2 ^ k → Z.pos (digits2_pos p) = k.
Proof.
  intros [Hlo Hhi]. pose proof (digits2_pos_bounds p) as [Hlo' Hhi'].
  destruct (Z.lt_trichotomy (Z.pos (digits2_pos p)) k) as [Hlt|[Heq|Hgt]]; [|done|].
  - pose proof (Z.pow_le_mono_r 2 (Z.pos (digits2_pos p)) (k - 1)). lia.
  - pose proof (Z.pow_le_mono_r 2 k (Z.pos (digits2_pos p) - 1)). lia.
Qed.

Lemma shr_1_m (mrs : shr_record) :
  0 ≤ shr_m mrs → shr_m (shr_1 mrs) = shr_m mrs / 2.
Proof.
  destruct mrs as [m r s]. cbn [shr_m]. intros Hm.
  destruct m as [|[p|p|]|p]; unfold shr_1; cbn [shr_m]; [done| | |done|lia].
  - rewrite (Pos2Z.inj_xI p). apply (Z.div_unique _ 2 _ 1); lia.
  - rewrite (Pos2Z.inj_xO p). apply (Z.div_unique _ 2 _ 0); lia.
Qed.

Lemma iter_shr_1_m (p : positive) (mrs : shr_record) :
  0 ≤ shr_m mrs → shr_m (SpecFloat.iter_pos shr_1 p mrs) = shr_m mrs / 2 ^ Z.pos p.
Proof.
  revert mrs. induction p as [p IH|p IH|]; intros mrs Hm; cbn [SpecFloat.iter_pos].
  - assert (H1 : 0 ≤ shr_m (shr_1 mrs)) by (rewrite shr_1_m by done; apply Z.div_pos; lia).
    assert (H2 : 0 ≤ shr_m (SpecFloat.iter_pos shr_1 p (shr_1 mrs))).
    { rewrite IH by done. apply Z.div_pos; lia. }
    rewrite IH, IH, shr_1_m by done.
    rewrite !Z.div_div by lia. f_equal.
    rewrite (Pos2Z.inj_xI p).
    replace (2 * Z.pos p + 1) with (Z.pos p + Z.pos p + 1) by lia.
    rewrite !Z.pow_add_r, Z.pow_1_r by lia. ring.
  - assert (H2 : 0 ≤ shr_m (SpecFloat.iter_pos shr_1 p mrs)).
    { rewrite IH by done. apply Z.div_pos; lia. }
    rewrite IH, IH by done.
    rewrite !Z.div_div by lia. f_equal.
    rewrite (Pos2Z.inj_xO p).
    replace (2 * Z.pos p) with (Z.pos p + Z.pos p) by lia.
    rewrite Z.pow_add_r by lia. ring.
  - by rewrite shr_1_m.
Qed.

Lemma shr_spec (mrs : shr_record) (e n : Z) :
  0 ≤ n → 0 ≤ shr_m mrs →
  shr_m (fst (shr mrs e n)) = shr_m mrs / 2 ^ n ∧ snd (shr mrs e n) = e + n.
Proof.
  intros Hn Hm. destruct n as [|p|p]; [| |lia]; cbn [shr fst snd].
  - rewrite Z.div_1_r. lia.
  - by rewrite iter_shr_1_m.
Qed.

Lemma IZR_pow2 (n : Z) : 0 ≤ n → IZR (2 ^ n) = powerRZ 2 n.
Proof. destruct n as [|p|p]; [done| |lia]. intros _. apply Zpower_pos_powerRZ. Qed.

Lemma powerRZ_2_pos (e : Z) : (0 < powerRZ 2 e)%R.
Proof. apply powerRZ_lt. lra. Qed.

Lemma powerRZ_2_add (a b : Z) : powerRZ 2 (a + b) = (powerRZ 2 a * powerRZ 2 b)%R.
Proof. apply powerRZ_add. lra. Qed.

Lemma powerRZ_2_shift (a n : Z) :
  0 ≤ n → powerRZ 2 (a + n) = (powerRZ 2 a * IZR (2 ^ n))%R.
Proof. intros Hn. by rewrite powerRZ_2_add, IZR_pow2. Qed.

(** Rounding to 53 bits, in the range of the normal numbers: the result is
    normal and at most one unit in the last place from every real number
    that the mantissa [M] at the exponent [E] bounds from below within one
    unit; that is relatively [2^-52]. *)
Lemma binary_round_aux_near (M E k : Z) (l : location) (x : R) :
  53 ≤ k → 2 ^ (k - 1) ≤ M < 2 ^ k → -1074 ≤ k + E - 53 ≤ 970 →
  (IZR M * powerRZ 2 E <= x <= IZR (M + 1) * powerRZ 2 E)%R →
  ∃ m e, binary_round_aux 53 1024 false M E l = S754_finite false m e
         ∧ Z.pos (digits2_pos m) = 53
         ∧ k + E - 53 ≤ e ≤ k + E - 52
         ∧ (- (x / 4503599627370496) <= IZR (Z.pos m) * powerRZ 2 e - x
            <= x / 4503599627370496)%R.
Proof.
  intros Hk HM He Hx.
  assert (HMpos : 0 < M) by (pose proof (Z.pow_pos_nonneg 2 (k - 1)); lia).
  destruct M as [|pM|pM]; [lia| |lia].
  assert (Hd : Zdigits2 (Z.pos pM) = k) by (by apply digits2_pos_unique).
  unfold binary_round_aux.
  assert (H1 : shr_fexp 53 1024 (Z.pos pM) E l
               = shr (shr_record_of_loc (Z.pos pM) l) E (k - 53)).
  { unfold shr_fexp. rewrite Hd. f_equal. unfold fexp, emin. lia. }
  rewrite H1. clear H1.
  assert (Hrec : shr_m (shr_record_of_loc (Z.pos pM) l) = Z.pos pM)
    by (by destruct l as [|[]]).
  destruct (shr_spec (shr_record_of_loc (Z.pos pM) l) E (k - 53)) as [Hm1 He1];
    [lia|rewrite Hrec; lia|].
  rewrite Hrec in Hm1. clear Hrec.
  destruct (shr (shr_record_of_loc (Z.pos pM) l) E (k - 53)) as [mrs' e'].
  cbn [fst snd] in Hm1, He1. subst e'.
  set (n := k - 53) in *.
  assert (H2n : 0 < 2 ^ n) by (apply Z.pow_pos_nonneg; lia).
  assert (Hk1 : 2 ^ (k - 1) = 2 ^ n * 4503599627370496).
  { change 4503599627370496 with (2 ^ 52). rewrite <- Z.pow_add_r by lia.
    f_equal. lia. }
  assert (Hk2 : 2 ^ k = 2 ^ n * 9007199254740992).
  { change 9007199254740992 with (2 ^ 53). rewrite <- Z.pow_add_r by lia.
    f_equal. lia. }
  assert (Hlo : 4503599627370496 ≤ shr_m mrs').
  { rewrite Hm1. apply Z.div_le_lower_bound; lia. }
  assert (Hhi : shr_m mrs' < 9007199254740992).
  { rewrite Hm1. apply Z.div_lt_upper_bound; lia. }
  assert (Hdm : 2 ^ n * shr_m mrs' ≤ Z.pos pM ∧ Z.pos pM + 1 ≤ 2 ^ n * (shr_m mrs' + 1)).
  { rewrite Hm1. split; [apply Z.mul_div_le; lia|].
    pose proof (Z.mul_succ_div_gt (Z.pos pM) (2 ^ n)). lia. }
  clear Hm1 Hk1 Hk2 Hd HM.
  set (m1 := shr_m mrs') in *.
  set (m2 := round_nearest_even m1 (loc_of_shr_record mrs')).
  assert (Hm2 : m2 = m1 ∨ m2 = m1 + 1).
  { unfold m2, round_nearest_even.
    destruct (loc_of_shr_record mrs') as [|[]]; auto. destruct (Z.even m1); auto. }
  clearbody m2 m1.
  (* the real number between the two candidates *)
  set (u := powerRZ 2 (E + n)).
  assert (Hu : (0 < u)%R) by apply powerRZ_2_pos.
  assert (Hxu : (IZR m1 * u <= x <= (IZR m1 + 1) * u)%R).
  { unfold u. rewrite powerRZ_2_shift by lia.
    destruct Hdm as [Hd1 Hd2]. apply IZR_le in Hd1, Hd2.
    rewrite mult_IZR in Hd1. rewrite mult_IZR, !plus_IZR in Hd2.
    rewrite plus_IZR in Hx.
    pose proof (powerRZ_2_pos E) as HE. destruct Hx as [Hx1 Hx2]. split.
    - apply Rle_trans with (IZR (Z.pos pM) * powerRZ 2 E)%R; [|done].
      replace (IZR m1 * (powerRZ 2 E * IZR (2 ^ n)))%R
        with ((IZR (2 ^ n) * IZR m1) * powerRZ 2 E)%R by ring.
      apply Rmult_le_compat_r; lra.
    - apply Rle_trans with ((IZR (Z.pos pM) + 1) * powerRZ 2 E)%R; [done|].
      replace ((IZR m1 + 1) * (powerRZ 2 E * IZR (2 ^ n)))%R
        with ((IZR (2 ^ n) * (IZR m1 + 1)) * powerRZ 2 E)%R by ring.
      apply Rmult_le_compat_r; lra. }
  assert (Hm1u : (4503599627370496 * u <= IZR m1 * u)%R).
  { apply Rmult_le_compat_r; [lra|]. by apply IZR_le. }
  assert (Hnear : (- (x / 4503599627370496) <= IZR m2 * u - x
                   <= x / 4503599627370496)%R).
  { destruct Hm2 as [->| ->]; [|rewrite plus_IZR]; lra. }
  clear Hx Hxu Hm1u Hdm.
  destruct (Z.eq_dec m2 9007199254740992) as [->|Hne].
  - exists 4503599627370496%positive, (E + n + 1).
    unfold shr_fexp. change (Zdigits2 9007199254740992) with 54.
    replace (fexp 53 1024 (54 + (E + n)) - (E + n)) with 1
      by (unfold fexp, emin; lia).
    cbn [shr shr_record_of_loc SpecFloat.iter_pos shr_1 shr_m].
    assert (Hle : (E + n + 1 <=? 1024 - 53) = true) by (apply Z.leb_le; lia).
    rewrite Hle. split; [done|]. split; [done|]. split; [lia|].
    replace (IZR (Z.pos 4503599627370496) * powerRZ 2 (E + n + 1))%R
      with (IZR 9007199254740992 * u)%R; [done|].
    unfold u. rewrite (powerRZ_2_add (E + n) 1). rewrite powerRZ_1. lra.
  - destruct m2 as [|pm|pm]; [lia| |lia].
    assert (Hd2 : Z.pos (digits2_pos pm) = 53) by (apply digits2_pos_unique; lia).
    exists pm, (E + n).
    unfold shr_fexp. cbn [Zdigits2]. rewrite Hd2.
    replace (fexp 53 1024 (53 + (E + n)) - (E + n)) with 0
      by (unfold fexp, emin; lia).
    cbn [shr shr_record_of_loc shr_m].
    assert (Hle : (E + n <=? 1024 - 53) = true) by (apply Z.leb_le; lia).
    rewrite Hle. split; [done|]. split; [done|]. split; [lia|done].
Qed.

Lemma normal_between_inv (lo hi : Z) (x : float) :
  normal_between lo hi x = true →
  ∃ m e, x = S754_finite false m e ∧ Z.pos (digits2_pos m) = 53 ∧ lo ≤ e ≤ hi.
Proof.
  destruct x as [| | |[] m e]; try done. cbn [normal_between].
  intros H. apply andb_prop in H as [H H3]. apply andb_prop in H as [H1 H2].
  exists m, e. split; [done|]. lia.
Qed.

Lemma normal_between_intro (lo hi : Z) (m : positive) (e : Z) :
  Z.pos (digits2_pos m) = 53 → lo ≤ e ≤ hi →
  normal_between lo hi (S754_finite false m e) = true.
Proof.
  intros Hm He. cbn [normal_between]. rewrite Hm.
  apply andb_true_intro. split; [apply andb_true_intro; split|]; lia.
Qed.

Lemma normal_mantissa (m : positive) :
  Z.pos (digits2_pos m) = 53 → 4503599627370496 ≤ Z.pos m < 9007199254740992.
Proof. intros H. pose proof (digits2_pos_bounds m) as Hb. rewrite H in Hb. exact Hb. Qed.

Lemma B2R_pos (lo hi : Z) (x : float) :
  normal_between lo hi x = true → (0 < B2R x)%R.
Proof.
  intros (m & e & -> & Hm & _)%normal_between_inv. cbn [B2R].
  pose proof (powerRZ_2_pos e). assert (0 < IZR (Z.pos m))%R by (by apply IZR_lt).
  rewrite Rmult_1_l. by apply Rmult_lt_0_compat.
Qed.

(** The product of two normal numbers, when it is in the range of the normal
    numbers. *)
Lemma SFmul_near (lx hx ly hy : Z) (x y : float) :
  normal_between lx hx x = true → normal_between ly hy y = true →
  -1126 ≤ lx + ly → hx + hy ≤ 917 →
  normal_between (lx + ly + 52) (hx + hy + 54) (SFmul 53 1024 x y) = true
  ∧ (- (B2R x * B2R y / 4503599627370496)
     <= B2R (SFmul 53 1024 x y) - B2R x * B2R y
     <= B2R x * B2R y / 4503599627370496)%R.
Proof.
  intros (mx & ex & -> & Hmx & Hex)%normal_between_inv
         (my & ey & -> & Hmy & Hey)%normal_between_inv Hlo Hhi.
  apply normal_mantissa in Hmx, Hmy.
  cbn [SFmul xorb B2R]. rewrite (Pos2Z.inj_mul mx my).
  set (M := Z.pos mx * Z.pos my).
  set (x := (1 * IZR (Z.pos mx) * powerRZ 2 ex * (1 * IZR (Z.pos my) * powerRZ 2 ey))%R).
  assert (Hx : x = (IZR M * powerRZ 2 (ex + ey))%R).
  { unfold x, M. rewrite mult_IZR, powerRZ_2_add. ring. }
  assert (HM : 20282409603651670423947251286016 ≤ M
               < 81129638414606681695789005144064) by (unfold M; nia).
  assert (Hb : (IZR M * powerRZ 2 (ex + ey) <= x
                <= IZR (M + 1) * powerRZ 2 (ex + ey))%R).
  { rewrite Hx, plus_IZR. pose proof (powerRZ_2_pos (ex + ey)). nra. }
  destruct (Z.lt_ge_cases M 40564819207303340847894502572032) as [Hlt|Hge].
  - destruct (binary_round_aux_near M (ex + ey) 105 loc_Exact x)
      as (m & e & -> & Hm & He & Hr); [lia|split; [|done]|lia|done|].
    { change (2 ^ (105 - 1)) with 20282409603651670423947251286016. lia. }
    split; [apply normal_between_intro; [done|lia]|].
    cbn [B2R]. by rewrite Rmult_1_l.
  - destruct (binary_round_aux_near M (ex + ey) 106 loc_Exact x)
      as (m & e & -> & Hm & He & Hr); [lia|split; [done|]|lia|done|].
    { change (2 ^ 106) with 81129638414606681695789005144064. lia. }
    split; [apply normal_between_intro; [done|lia]|].
    cbn [B2R]. by rewrite Rmult_1_l.
Qed.

(** The quotient of two normal numbers, when it is in the range of the normal
    numbers. *)
Lemma SFdiv_near (lx hx ly hy : Z) (x y : float) :
  normal_between lx hx x = true → normal_between ly hy y = true →
  -1021 ≤ lx - hy → hx - ly ≤ 1022 →
  normal_between (lx - hy - 53) (hx - ly - 51) (SFdiv 53 1024 x y) = true
  ∧ (- (B2R x / B2R y / 4503599627370496)
     <= B2R (SFdiv 53 1024 x y) - B2R x / B2R y
     <= B2R x / B2R y / 4503599627370496)%R.
Proof.
  intros (mx & ex & -> & Hmx & Hex)%normal_between_inv
         (my & ey & -> & Hmy & Hey)%normal_between_inv Hlo Hhi.
  cbn [SFdiv xorb B2R]. unfold SFdiv_core_binary. cbn [Zdigits2].
  rewrite Hmx, Hmy. apply normal_mantissa in Hmx, Hmy.
  replace (Z.min (fexp 53 1024 (53 + ex - (53 + ey))) (ex - ey))
    with (ex - ey - 53) by (unfold fexp, emin; lia).
  replace (ex - ey - (ex - ey - 53)) with 53 by lia. cbv iota.
  rewrite Z.shiftl_mul_pow2 by lia.
  change (2 ^ 53) with 9007199254740992.
  set (M' := Z.pos mx * 9007199254740992).
  pose proof (Z.mul_div_le M' (Z.pos my)) as Hq1.
  pose proof (Z.mul_succ_div_gt M' (Z.pos my)) as Hq2.
  unfold Z.div in Hq1, Hq2.
  destruct (Z.div_eucl M' (Z.pos my)) as [q r].
  set (E := ex - ey - 53).
  set (x := (1 * IZR (Z.pos mx) * powerRZ 2 ex / (1 * IZR (Z.pos my) * powerRZ 2 ey))%R).
  assert (Hb : 0 < Z.pos my) by lia.
  specialize (Hq1 Hb). specialize (Hq2 Hb).
  assert (Hq : 4503599627370496 ≤ q < 18014398509481984) by (unfold M' in *; nia).
  assert (Hy : (0 < IZR (Z.pos my))%R) by (by apply IZR_lt).
  assert (Hx : x = (IZR M' / IZR (Z.pos my) * powerRZ 2 E)%R).
  { unfold x, M', E. replace ex with (ey + (ex - ey - 53) + 53) at 1 by lia.
    rewrite !powerRZ_2_add, mult_IZR.
    rewrite <- (IZR_pow2 53) by lia. change (2 ^ 53) with 9007199254740992.
    pose proof (powerRZ_2_pos ey). field. lra. }
  assert (Hbx : (IZR q * powerRZ 2 E <= x <= IZR (q + 1) * powerRZ 2 E)%R).
  { rewrite Hx. pose proof (powerRZ_2_pos E) as HE.
    apply IZR_le in Hq1. apply IZR_lt in Hq2.
    rewrite mult_IZR in Hq1. rewrite mult_IZR in Hq2.
    change (Z.succ q) with (q + 1) in Hq2. 
    assert (Hq1' : (IZR q <= IZR M' / IZR (Z.pos my))%R).
    { apply Rmult_le_reg_r with (IZR (Z.pos my)); [done|].
      replace (IZR M' / IZR (Z.pos my) * IZR (Z.pos my))%R with (IZR M') by (field; lra).
      lra. }
    assert (Hq2' : (IZR M' / IZR (Z.pos my) <= IZR (q + 1))%R).
    { apply Rmult_le_reg_r with (IZR (Z.pos my)); [done|].
      replace (IZR M' / IZR (Z.pos my) * IZR (Z.pos my))%R with (IZR M') by (field; lra).
      lra. }
    split; apply Rmult_le_compat_r; lra. }
  destruct (Z.lt_ge_cases q 9007199254740992) as [Hlt|Hge].
  - destruct (binary_round_aux_near q E 53 (new_location (Z.pos my) r) x)
      as (m & e & -> & Hm & He & Hr); [lia|split; [|done]|unfold E; lia|done|].
    { change (2 ^ (53 - 1)) with 4503599627370496. lia. }
    split; [apply normal_between_intro; [done|unfold E in He; lia]|].
    cbn [B2R]. by rewrite Rmult_1_l.
  - destruct (binary_round_aux_near q E 54 (new_location (Z.pos my) r) x)
      as (m & e & -> & Hm & He & Hr); [lia|split; [done|]|unfold E; lia|done|].
    { change (2 ^ 54) with 18014398509481984. lia. }
    split; [apply normal_between_intro; [done|unfold E in He; lia]|].
    cbn [B2R]. by rewrite Rmult_1_l.
Qed.

Lemma normal_lt (mx my : positive) (ex ey : Z) :
  Z.pos (digits2_pos mx) = 53 → Z.pos (digits2_pos my) = 53 → ex < ey →
  (IZR (Z.pos mx) * powerRZ 2 ex < IZR (Z.pos my) * powerRZ 2 ey)%R.
Proof.
  intros Hmx%normal_mantissa Hmy%normal_mantissa He.
  replace ey with (ex + (ey - ex)) by lia. rewrite powerRZ_2_shift by lia.
  pose proof (Z.pow_le_mono_r 2 1 (ey - ex)) as Hp. rewrite Z.pow_1_r in Hp.
  assert (Hz : Z.pos mx < Z.pos my * 2 ^ (ey - ex)) by nia.
  apply IZR_lt in Hz. rewrite mult_IZR in Hz.
  pose proof (powerRZ_2_pos ex). nra.
Qed.

(** [<] on normal numbers is [<] on what they stand for. *)
Lemma SFltb_normal (lx hx ly hy : Z) (x y : float) :
  normal_between lx hx x = true → normal_between ly hy y = true →
  if SFltb x y then (B2R x < B2R y)%R else (B2R y <= B2R x)%R.
Proof.
  intros (mx & ex & -> & Hmx & Hex)%normal_between_inv
         (my & ey & -> & Hmy & Hey)%normal_between_inv.
  unfold SFltb, SFcompare. cbn [B2R]. rewrite !Rmult_1_l.
  destruct (Z.compare_spec ex ey) as [->|Hlt|Hgt].
  - change (Pos.compare_cont Eq mx my) with (mx ?= my)%positive.
    pose proof (powerRZ_2_pos ey).
    destruct (Pos.compare_spec mx my) as [->|Hm|Hm].
    + lra.
    + apply Rmult_lt_compat_r; [done|]. by apply IZR_lt.
    + apply Rmult_le_compat_r; [lra|]. apply IZR_le. lia.
  - by apply normal_lt.
  - apply Rlt_le. by apply normal_lt.
Qed.

(** [max] of two normal numbers is one of them and not below either. *)
Lemma pymax_normal (lx hx ly hy : Z) (x y : float) :
  normal_between lx hx x = true → normal_between ly hy y = true →
  (pymax x y = x ∨ pymax x y = y)
  ∧ (B2R x <= B2R (pymax x y))%R ∧ (B2R y <= B2R (pymax x y))%R.
Proof.
  intros Hx Hy. pose proof (SFltb_normal _ _ _ _ x y Hx Hy) as H.
  unfold pymax. cbn [gt Number_float].
  destruct (SFltb x y); [split; [by right|lra] | split; [by left|lra]].
Qed.

(** The arithmetic of the scaling step, on the real numbers: every
    operation is off by at most the relative error [2^-52]. *)
Lemma scale_bounds (W H S A F W' H' M' : R) :
  (0 < W)%R → (0 < H)%R → (0 < S)%R → (0 < F)%R →
  A = W ∨ A = H → (W <= A)%R → (H <= A)%R →
  (- (S / A / 4503599627370496) <= F - S / A <= S / A / 4503599627370496)%R →
  (- (W * F / 4503599627370496) <= W' - W * F <= W * F / 4503599627370496)%R →
  (- (H * F / 4503599627370496) <= H' - H * F <= H * F / 4503599627370496)%R →
  M' = W' ∨ M' = H' → (W' <= M')%R → (H' <= M')%R →
  (Rabs (M' - S) <= S / 2 ^ 50)%R
  ∧ (Rabs (W' * H - H' * W) <= H' * W / 2 ^ 50)%R.
Proof.
  intros Pw Ph Ps Pf HA Hwa Hha Hf Hw' Hh' HM Hwm Hhm.
  replace (2 ^ 50)%R with 1125899906842624%R by (simpl; lra).
  assert (Pa : (0 < A)%R) by lra.
  (* the factor times the larger dimension *)
  assert (HAF : (S - S / 4503599627370496 <= A * F <= S + S / 4503599627370496)%R).
  { assert (E1 : (A * (F - S / A) = A * F - S)%R) by (field; lra).
    assert (E2 : (A * (S / A / 4503599627370496) = S / 4503599627370496)%R)
      by (field; lra).
    destruct Hf as [Hf1 Hf2].
    apply (Rmult_le_compat_l A) in Hf1; [|lra].
    apply (Rmult_le_compat_l A) in Hf2; [|lra].
    rewrite E1 in Hf1, Hf2. rewrite E2 in Hf2.
    replace (A * - (S / A / 4503599627370496))%R
      with (- (S / 4503599627370496))%R in Hf1 by (field; lra).
    lra. }
  assert (HWF : (W * F <= A * F)%R) by (apply Rmult_le_compat_r; lra).
  assert (HHF : (H * F <= A * F)%R) by (apply Rmult_le_compat_r; lra).
  assert (PWF : (0 < W * F)%R) by (by apply Rmult_lt_0_compat).
  assert (PHF : (0 < H * F)%R) by (by apply Rmult_lt_0_compat).
  split.
  - (* the one of the new dimensions that comes from the larger old one *)
    assert (HA' : (A * F - A * F / 4503599627370496 <= M')%R)
      by (destruct HA as [-> | ->]; lra).
    apply Rabs_le. destruct HM as [-> | ->]; lra.
  - set (P := (W * F * H)%R).
    assert (PP : (0 < P)%R) by (by apply Rmult_lt_0_compat).
    assert (HP1 : (P - P / 4503599627370496 <= W' * H <= P + P / 4503599627370496)%R).
    { destruct Hw' as [H1 H2].
      apply (Rmult_le_compat_r H) in H1; [|lra].
      apply (Rmult_le_compat_r H) in H2; [|lra]. unfold P. lra. }
    assert (HP2 : (P - P / 4503599627370496 <= H' * W <= P + P / 4503599627370496)%R).
    { destruct Hh' as [H1 H2].
      apply (Rmult_le_compat_r W) in H1; [|lra].
      apply (Rmult_le_compat_r W) in H2; [|lra]. unfold P. lra. }
    apply Rabs_le. lra.
Qed.

End Binary64.

(** C6 (amended). For a drawing whose width and height are normal binary64
    numbers between [2^-300] and [2^300], and such a scale, the scaling step
    returns; it multiplies both dimensions by the same factor, the rounded
    quotient of the scale and the larger dimension, and stores that factor
    as [renderScale].  The larger dimension of the result is the scale up to
    the relative error [2^-50], and the ratio of width to height is kept up
    to that relative error. *)
Theorem scale_drawing_rounds (scale : float) (d : Drawing float) :
  moderate (width d) = true → moderate (height d) = true →
  moderate scale = true →
  let factor := SFdiv 53 1024 scale (pymax (width d) (height d)) in
  let w' := SFmul 53 1024 (width d) factor in
  let h' := SFmul 53 1024 (height d) factor in
  scale_drawing scale d = Ok {| width := w'; height := h'; renderScale := factor |}
  ∧ (Rabs (B2R (pymax w' h') - B2R scale) <= B2R scale / 2 ^ 50)%R
  ∧ (Rabs (B2R w' * B2R (height d) - B2R h' * B2R (width d))
     <= B2R h' * B2R (width d) / 2 ^ 50)%R.
Proof.
  intros Hw Hh Hs. unfold moderate in *.
  destruct (pymax_normal _ _ _ _ _ _ Hw Hh) as (Ha & Hwa & Hha).
  set (a := pymax (width d) (height d)) in *.
  assert (Hna : normal_between (-352) 247 a = true) by (by destruct Ha as [-> | ->]).
  destruct (SFdiv_near _ _ _ _ _ _ Hs Hna) as [Hnf Hf]; [lia..|].
  cbn zeta. set (f := SFdiv 53 1024 scale a) in *.
  destruct (SFmul_near _ _ _ _ _ _ Hw Hnf) as [Hnw Hw']; [lia..|].
  destruct (SFmul_near _ _ _ _ _ _ Hh Hnf) as [Hnh Hh']; [lia..|].
  destruct (pymax_normal _ _ _ _ _ _ Hnw Hnh) as (Hm & Hwm & Hhm).
  split.
  { unfold scale_drawing. fold a. cbn [div mul Number_float].
    apply normal_between_inv in Hna as (ma & ea & -> & _). done. }
  apply (scale_bounds (B2R (width d)) (B2R (height d)) (B2R scale) (B2R a) (B2R f)).
  - exact (B2R_pos _ _ _ Hw).
  - exact (B2R_pos _ _ _ Hh).
  - exact (B2R_pos _ _ _ Hs).
  - exact (B2R_pos _ _ _ Hnf).
  - destruct Ha as [E|E]; [left|right]; exact (f_equal B2R E).
  - exact Hwa.
  - exact Hha.
  - exact Hf.
  - exact Hw'.
  - exact Hh'.
  - destruct Hm as [E|E]; [left|right]; exact (f_equal B2R E).
  - exact Hwm.
  - exact Hhm.
Qed.

Lemma scale_drawing_rounds_witness :
  moderate (width a4_landscape) = true
  ∧ moderate (height a4_landscape) = true
  ∧ moderate (of_Z 500) = true
  ∧ ∃ d', scale_drawing (of_Z 500) a4_landscape = Ok d'
          ∧ (Rabs (B2R (pymax (width d') (height d')) - B2R (of_Z 500))
             <= B2R (of_Z 500) / 2 ^ 50)%R.
Proof.
  split; [reflexivity|]. split; [reflexivity|]. split; [reflexivity|].
  destruct (scale_drawing_rounds (of_Z 500) a4_landscape) as (Hd & Hm & _);
    [reflexivity..|].
  eexists. split; [exact Hd|exact Hm].
Defined.

(** C6, as stated, fails for the floats that svglib puts in a drawing: an A4
    landscape sheet, 297 by 210, scaled to 500, gets the width
    500.00000000000006. *)
Lemma scale_drawing_float_inexact :
  SFltb (of_Z 0) (width a4_landscape) = true
  ∧ SFltb (of_Z 0) (height a4_landscape) = true
  ∧ SFltb (of_Z 0) (of_Z 500) = true
  ∧ ∃ d', scale_drawing (of_Z 500) a4_landscape = Ok d'
          ∧ pymax (width d') (height d') = S754_finite false 8796093022208001 (-44)
          ∧ of_Z 500 = S754_finite false 8796093022208000 (-44)
          ∧ SFcompare (pymax (width d') (height d')) (of_Z 500) = Some Gt.
Proof.
  repeat split; try reflexivity.
  eexists. repeat split; vm_compute; reflexivity.
Qed.

(** * Further properties *)

(** ** [ensure_dir] *)

Lemma is_dir_inserted (f : gmap path node) (d : path) :
  is_dir (<[d := Dir]> f) d = true.
Proof.
  unfold is_dir, stat. cbn [stat_fuel]. destruct d; [done|].
  cbn [lstat]. by rewrite lookup_insert_eq.
Qed.

Lemma is_dir_exists (f : gmap path node) (d : path) :
  is_dir f d = true → lstat f d ≠ None.
Proof. unfold is_dir, stat. cbn [stat_fuel]. by destruct (lstat f d). Qed.

Lemma is_dir_stored (f : gmap path node) (d : path) :
  lstat f d = Some Dir → is_dir f d = true.
Proof.
  intros Hd. unfold is_dir. rewrite stat_no_link by (rewrite Hd; discriminate).
  by rewrite Hd.
Qed.

Lemma is_dir_file (f : gmap path node) (d : path) (c : string) :
  lstat f d = Some (File c) → is_dir f d = false.
Proof.
  intros Hd. unfold is_dir. rewrite stat_no_link by (rewrite Hd; discriminate).
  by rewrite Hd.
Qed.

Lemma os_mkdir_unfold (d : path) (w : World) :
  os_mkdir d w =
  match lstat (fs w) d with
  | Some _ => (Raise (FileExistsError d), w)
  | None =>
      match list_find (λ a, is_dir (fs w) a = false) (prefixes (parent d)) with
      | None => (Ok tt, mkWorld (<[d := Dir]> (fs w)) (out w))
      | Some (_, a) =>
          match stat (fs w) a with
          | None => (Raise (FileNotFoundError d), w)
          | Some _ => (Raise (NotADirectoryError d), w)
          end
      end
  end.
Proof.
  unfold os_mkdir, bind, get_fs, put_fs, raise.
  destruct (lstat (fs w) d); [done|].
  destruct (list_find _ _) as [[i a]|]; [|done]. by destruct (stat (fs w) a).
Qed.

(** [os.mkdir] that raises has changed nothing. *)
Lemma os_mkdir_raise (d : path) (e : exn) (w w' : World) :
  os_mkdir d w = (Raise e, w') → w' = w.
Proof.
  rewrite os_mkdir_unfold. destruct (lstat (fs w) d); [congruence|].
  destruct (list_find _ _) as [[i a]|]; [|discriminate].
  destruct (stat (fs w) a); congruence.
Qed.

Lemma os_mkdir_ok (d : path) (w w' : World) :
  os_mkdir d w = (Ok tt, w') →
  lstat (fs w) d = None ∧ w' = mkWorld (<[d := Dir]> (fs w)) (out w).
Proof.
  rewrite os_mkdir_unfold. destruct (lstat (fs w) d); [discriminate|].
  destruct (list_find _ _) as [[i a]|]; [destruct (stat (fs w) a); discriminate|].
  by intros [= <-].
Qed.

Lemma exist_ok_unfold (d : path) (e : exn) (w : World) :
  (do f <- get_fs ; if is_dir f d then ret tt else raise e) w
  = (if is_dir (fs w) d then Ok tt else Raise e, w).
Proof. unfold bind, get_fs, ret, raise. by destruct (is_dir (fs w) d). Qed.

Lemma adds_dirs_refl (P : path → Prop) (w : World) : adds_dirs P w w.
Proof. split; [done|]. intros q. by left. Qed.

Lemma adds_dirs_trans (P : path → Prop) (w w1 w2 : World) :
  adds_dirs P w w1 → adds_dirs P w1 w2 → adds_dirs P w w2.
Proof.
  intros [Ho1 H1] [Ho2 H2]. split; [congruence|]. intros q.
  destruct (H1 q) as [E1|(N1 & D1 & Hq)], (H2 q) as [E2|(N2 & D2 & Hq')].
  - left. congruence.
  - right. rewrite <- E1. done.
  - right. rewrite E2. done.
  - congruence.
Qed.

Lemma adds_dirs_weaken (P Q : path → Prop) (w w' : World) :
  (∀ q, P q → Q q) → adds_dirs P w w' → adds_dirs Q w w'.
Proof.
  intros HPQ [Ho H]. split; [done|]. intros q.
  destruct (H q) as [E|(N & D & Hne & Hq)]; [by left|right; auto].
Qed.

Lemma adds_dirs_subseteq (P : path → Prop) (w w' : World) :
  adds_dirs P w w' → fs w ⊆ fs w'.
Proof.
  intros [_ H]. apply map_subseteq_spec. intros q x Hq.
  destruct (H q) as [E|(N & _)]; [by rewrite E|by rewrite N in Hq].
Qed.

Lemma os_mkdir_adds (d : path) (w : World) :
  adds_dirs (λ q, q = d) w (snd (os_mkdir d w)).
Proof.
  destruct (os_mkdir d w) as [[[]|e] w'] eqn:E; cbn [snd].
  - apply os_mkdir_ok in E as [Hn ->]. split; [done|]. intros q. cbn [fs].
    destruct (decide (q = d)) as [->|Hq].
    + right. destruct d; [discriminate|]. cbn [lstat] in Hn.
      by rewrite lookup_insert_eq.
    + left. by apply lookup_insert_ne.
  - apply os_mkdir_raise in E as ->. apply adds_dirs_refl.
Qed.

(** Handling the exception of a call that changed nothing unless it
    returned. *)
Lemma try_except_adds (P : path → Prop) (body : M unit) (handler : exn → M unit)
    (w : World) :
  adds_dirs P w (snd (body w)) →
  (∀ e w1, body w = (Raise e, w1) → adds_dirs P w1 (snd (handler e w1))) →
  adds_dirs P w (snd (try_except body handler w)).
Proof.
  intros Hb Hh. unfold try_except.
  destruct (body w) as [[[]|e] w1] eqn:E; cbn [snd] in *; [done|].
  eapply adds_dirs_trans; [exact Hb|]. by apply Hh.
Qed.

Lemma mkdir_leaf_adds (d : path) (w : World) :
  adds_dirs (λ q, q = d) w (snd (mkdir_leaf d w)).
Proof.
  unfold mkdir_leaf. apply try_except_adds; [apply os_mkdir_adds|].
  intros e w1 _. destruct e; try (rewrite exist_ok_unfold); apply adds_dirs_refl.
Qed.

Lemma mkdir_parents_rev_adds (rd : list string) (w : World) :
  adds_dirs (λ q, q `prefix_of` rev rd) w (snd (mkdir_parents_rev rd w)).
Proof.
  revert w. induction rd as [|c rd IH]; intros w; cbn [mkdir_parents_rev].
  - apply try_except_adds.
    + eapply adds_dirs_weaken; [|apply os_mkdir_adds]. by intros q ->.
    + intros e w1 _. destruct e; try (rewrite exist_ok_unfold); apply adds_dirs_refl.
  - apply try_except_adds.
    + eapply adds_dirs_weaken; [|apply os_mkdir_adds]. by intros q ->.
    + intros e w1 _.
      destruct e; try (rewrite exist_ok_unfold; apply adds_dirs_refl).
      unfold bind.
      pose proof (IH w1) as H1.
      destruct (mkdir_parents_rev rd w1) as [[[]|e] w2]; cbn [snd] in *.
      * eapply adds_dirs_trans.
        -- eapply adds_dirs_weaken; [|exact H1]. intros q Hq. cbn [rev].
           by apply prefix_app_r.
        -- eapply adds_dirs_weaken; [|apply mkdir_leaf_adds]. by intros q ->.
      * eapply adds_dirs_weaken; [|exact H1]. intros q Hq. cbn [rev].
        by apply prefix_app_r.
Qed.

Lemma ensure_dir_unfold (p : path) (w : World) :
  ensure_dir p w =
  match resolve (fs w) (parent p) with
  | None => (Raise (RuntimeError "Symlink loop"), w)
  | Some d => mkdir_parents_rev (rev d) w
  end.
Proof.
  unfold ensure_dir, bind, get_fs, raise, mkdir_parents.
  by destruct (resolve (fs w) (parent p)).
Qed.

Lemma ensure_dir_adds (p : path) (w : World) :
  adds_dirs (λ q, ∃ d, resolve (fs w) (parent p) = Some d ∧ q `prefix_of` d)
            w (snd (ensure_dir p w)).
Proof.
  rewrite ensure_dir_unfold.
  destruct (resolve (fs w) (parent p)) as [d|]; [|apply adds_dirs_refl].
  eapply adds_dirs_weaken; [|apply mkdir_parents_rev_adds].
  intros q Hq. exists d. by rewrite rev_involutive in Hq.
Qed.

Lemma mkdir_leaf_made (d : path) (w w' : World) :
  mkdir_leaf d w = (Ok tt, w') → is_dir (fs w') d = true.
Proof.
  unfold mkdir_leaf, try_except.
  destruct (os_mkdir d w) as [[[]|e] w1] eqn:E.
  - intros [= <-]. apply os_mkdir_ok in E as [_ ->]. apply is_dir_inserted.
  - destruct e; try discriminate; rewrite exist_ok_unfold;
      (destruct (is_dir (fs w1) d) eqn:Ed; [|discriminate]); by intros [= <-].
Qed.

(** [mkdir(parents=True, exist_ok=True)] that returns has left a directory. *)
Lemma mkdir_parents_rev_made (rd : list string) (w w' : World) :
  mkdir_parents_rev rd w = (Ok tt, w') → is_dir (fs w') (rev rd) = true.
Proof.
  assert (Hother : ∀ e w1, (do f <- get_fs ;
                            if is_dir f (rev rd) then ret tt else raise e) w1
                           = (Ok tt, w') → is_dir (fs w') (rev rd) = true).
  { intros e w1. rewrite exist_ok_unfold.
    destruct (is_dir (fs w1) (rev rd)) eqn:Ed; [|discriminate]. by intros [= <-]. }
  destruct rd as [|c rd]; cbn [mkdir_parents_rev]; unfold try_except;
    (destruct (os_mkdir _ w) as [[[]|e] w1] eqn:E;
     [intros [= <-]; apply os_mkdir_ok in E as [_ ->]; apply is_dir_inserted|]);
    destruct e; try discriminate; try apply Hother.
  unfold bind. destruct (mkdir_parents_rev rd w1) as [[[]|e] w2]; [|discriminate].
  apply mkdir_leaf_made.
Qed.

(** A second [mkdir(parents=True, exist_ok=True)] finds the directory. *)
Lemma mkdir_parents_rev_again (rd : list string) (w : World) :
  is_dir (fs w) (rev rd) = true → mkdir_parents_rev rd w = (Ok tt, w).
Proof.
  intros Hd. pose proof (is_dir_exists _ _ Hd) as Hl.
  assert (E : os_mkdir (rev rd) w = (Raise (FileExistsError (rev rd)), w)).
  { rewrite os_mkdir_unfold. by destruct (lstat (fs w) (rev rd)). }
  destruct rd as [|c rd]; cbn [mkdir_parents_rev]; unfold try_except;
    rewrite E, exist_ok_unfold, Hd; reflexivity.
Qed.

Lemma realpath_nil (n : nat) (f : gmap path node) (cur : path) :
  realpath n f cur [] = Some cur.
Proof. by destruct n. Qed.

Lemma realpath_cons (n : nat) (f : gmap path node) (cur : path) (c : string)
    (rest : list string) :
  realpath n f cur (c :: rest) =
  if String.eqb c ".." then realpath n f (parent cur) rest
  else match f !! (cur ++ [c]) with
       | Some (Symlink t) =>
           match n with
           | O => None
           | S n' =>
               match realpath n' f [] t with
               | Some cur' => realpath n f cur' rest
               | None => None
               end
           end
       | _ => realpath n f (cur ++ [c]) rest
       end.
Proof. by destruct n. Qed.

(** Directories created where nothing was do not change what a path
    resolves to. *)
Lemma realpath_ext (f f' : gmap path node) :
  (∀ q : list string, f' !! q = f !! q ∨ (f !! q = None ∧ f' !! q = Some Dir)) →
  ∀ n cur rest, realpath n f' cur rest = realpath n f cur rest.
Proof.
  intros Hext n. induction n as [|n IHn]; intros cur rest; revert cur;
    (induction rest as [|c rest IHrest]; intros cur;
     [by rewrite !realpath_nil|]);
    rewrite !realpath_cons;
    (destruct (String.eqb c ".."); [apply IHrest|]);
    (destruct (Hext (cur ++ [c])) as [-> | [-> ->]]; [|apply IHrest]);
    destruct (f !! (cur ++ [c])) as [[| |t|]|]; try apply IHrest; [done|].
  rewrite IHn. destruct (realpath n f [] t); [apply IHrest|done].
Qed.

(** Allowing more nested links keeps a result. *)
Lemma realpath_mono (f : gmap path node) (n m : nat) (cur : path)
    (rest : list string) (d : path) :
  (n ≤ m)%nat → realpath n f cur rest = Some d → realpath m f cur rest = Some d.
Proof.
  revert m cur rest d. induction n as [|n IHn]; intros m cur rest; revert cur;
    (induction rest as [|c rest IHrest]; intros cur d Hnm;
     [by rewrite !realpath_nil|]);
    rewrite !realpath_cons;
    (destruct (String.eqb c ".."); [by apply IHrest|]);
    destruct (f !! (cur ++ [c])) as [[| |t|]|]; try (by apply IHrest);
    [done|].
  destruct m as [|m]; [lia|].
  destruct (realpath n f [] t) as [cur'|] eqn:E; [|done].
  rewrite (IHn m [] t cur') by (done || lia). by apply IHrest.
Qed.

Lemma resolve_adds (P : path → Prop) (w w' : World) (p d : path) :
  adds_dirs P w w' → resolve (fs w) p = Some d → resolve (fs w') p = Some d.
Proof.
  intros Hadd Hr. unfold resolve in *.
  rewrite (realpath_ext (fs w) (fs w')).
  - apply (realpath_mono _ (size (fs w))); [|done].
    apply map_subseteq_size. by eapply adds_dirs_subseteq.
  - intros q. destruct Hadd as [_ H].
    destruct (H q) as [E|(N & D & _)]; auto.
Qed.

(** X1. When [ensure_dir] returns, the directory that the parent of the path
    resolves to, with links and [..] worked out, exists. *)
Theorem ensure_dir_makes_ancestors (p : path) (w w' : World) :
  ensure_dir p w = (Ok tt, w') →
  ∃ d, resolve (fs w) (parent p) = Some d ∧ is_dir (fs w') d = true.
Proof.
  rewrite ensure_dir_unfold.
  destruct (resolve (fs w) (parent p)) as [d|]; [|discriminate].
  intros Hrun. exists d. split; [done|].
  apply mkdir_parents_rev_made in Hrun. by rewrite rev_involutive in Hrun.
Qed.

Lemma ensure_dir_makes_ancestors_witness :
  ensure_dir ["latest"; "img"; ".."; "png"; "a.png"] build_world
  = (Ok tt, mkWorld (<[ ["build"; "png"] := Dir ]> (fs build_world)) [])
  ∧ ∃ d, resolve (fs build_world) (parent ["latest"; "img"; ".."; "png"; "a.png"])
         = Some d
         ∧ is_dir (fs (mkWorld (<[ ["build"; "png"] := Dir ]> (fs build_world)) []))
             d = true.
Proof.
  split; [reflexivity|].
  exact (ensure_dir_makes_ancestors ["latest"; "img"; ".."; "png"; "a.png"]
           build_world (mkWorld (<[ ["build"; "png"] := Dir ]> (fs build_world)) [])
           eq_refl).
Defined.

(** X2. [ensure_dir] only ever adds directories: whether it returns or
    raises, nothing is printed, every entry that existed is unchanged, and
    every new entry is a directory at the path that the parent resolves to
    or at an ancestor of it. *)
Theorem ensure_dir_only_adds (p q : path) (w : World) :
  let w' := snd (ensure_dir p w) in
  out w' = out w
  ∧ (fs w' !! q = fs w !! q
     ∨ (fs w !! q = None ∧ fs w' !! q = Some Dir ∧ q ≠ []
        ∧ ∃ d, resolve (fs w) (parent p) = Some d ∧ q `prefix_of` d)).
Proof.
  cbn zeta. destruct (ensure_dir_adds p w) as [Ho H]. split; [done|apply H].
Qed.

(** X3. [ensure_dir] is idempotent: after a call that returned, a second call
    returns and changes nothing. *)
Theorem ensure_dir_idempotent (p : path) (w w' : World) :
  ensure_dir p w = (Ok tt, w') → ensure_dir p w' = (Ok tt, w').
Proof.
  intros Hrun. pose proof (ensure_dir_adds p w) as Hadd.
  rewrite Hrun in Hadd. cbn [snd] in Hadd.
  rewrite ensure_dir_unfold in Hrun.
  destruct (resolve (fs w) (parent p)) as [d|] eqn:Hr; [|discriminate].
  rewrite ensure_dir_unfold, (resolve_adds _ _ _ _ _ Hadd Hr).
  apply mkdir_parents_rev_again. by apply (mkdir_parents_rev_made _ w).
Qed.

Lemma ensure_dir_idempotent_witness :
  ensure_dir ["out"; "img"; "a.png"] empty_world
  = (Ok tt, mkWorld (<[ ["out"; "img"] := Dir ]> (<[ ["out"] := Dir ]> ∅)) [])
  ∧ ensure_dir ["out"; "img"; "a.png"]
      (mkWorld (<[ ["out"; "img"] := Dir ]> (<[ ["out"] := Dir ]> ∅)) [])
    = (Ok tt, mkWorld (<[ ["out"; "img"] := Dir ]> (<[ ["out"] := Dir ]> ∅)) []).
Proof.
  split; [reflexivity|].
  apply (ensure_dir_idempotent ["out"; "img"; "a.png"] empty_world). reflexivity.
Defined.

Lemma elem_of_prefixes (p d : path) :
  d ∈ prefixes p ↔ d ≠ [] ∧ d `prefix_of` p.
Proof.
  unfold prefixes. rewrite list_elem_of_fmap. split.
  - intros (n & -> & Hn). apply elem_of_seq in Hn. split.
    + destruct p, n; cbn in *; try lia; discriminate.
    + apply prefix_take.
  - intros [Hd [k ->]]. exists (length d). split.
    + by rewrite take_app_length.
    + apply elem_of_seq. rewrite length_app. destruct d; [done|]. cbn. lia.
Qed.

Lemma tree_ancestor (f : gmap path node) (q a : path) (x : node) :
  tree f = true → f !! q = Some x → a ∈ prefixes (parent q) → f !! a = Some Dir.
Proof.
  unfold tree. rewrite forallb_forall. intros Ht Hq Ha.
  specialize (Ht (q, x)). rewrite forallb_forall in Ht.
  assert (Hin : In (q, x) (map_to_list f))
    by (by apply list_elem_of_In, elem_of_map_to_list).
  specialize (Ht Hin a). cbn [fst] in Ht.
  apply list_elem_of_In in Ha. specialize (Ht Ha).
  by destruct (f !! a) as [[]|].
Qed.

Lemma prefixes_lookup (p : path) (i : nat) :
  (i < length p)%nat → prefixes p !! i = Some (take (S i) p).
Proof.
  intros Hi. unfold prefixes. rewrite list_lookup_fmap.
  by rewrite lookup_seq_lt.
Qed.

Lemma prefixes_lookup_inv (p a : path) (i : nat) :
  prefixes p !! i = Some a → a = take (S i) p ∧ (i < length p)%nat.
Proof.
  intros Hi. assert (Hlt : (i < length p)%nat).
  { apply lookup_lt_Some in Hi. unfold prefixes in Hi.
    by rewrite length_fmap, length_seq in Hi. }
  rewrite prefixes_lookup in Hi by done. split; congruence.
Qed.

(** Below a file, in a tree, [os.mkdir] meets the file on its way. *)
Lemma os_mkdir_below_file (d a : path) (c : string) (w : World) :
  tree (fs w) = true → a `prefix_of` d → a ≠ d →
  lstat (fs w) a = Some (File c) →
  os_mkdir d w = (Raise (NotADirectoryError d), w) ∧ is_dir (fs w) d = false.
Proof.
  intros Ht [k ->] Hne Ha.
  assert (Ha0 : a ≠ []) by (intros ->; discriminate).
  assert (Hk : k ≠ []) by (intros ->; by rewrite app_nil_r in Hne).
  assert (Hak : a ++ k ≠ []) by (by destruct a).
  assert (Hfa : fs w !! a = Some (File c)) by (by rewrite <- lstat_lookup).
  assert (Hla : (0 < length a)%nat) by (destruct a; [done|cbn; lia]).
  destruct (exists_last Hk) as (k' & z & ->).
  assert (Hpar : parent (a ++ k' ++ [z]) = a ++ k').
  { unfold parent. by rewrite app_assoc, removelast_last. }
  assert (Hin : a ∈ prefixes (a ++ k')).
  { apply elem_of_prefixes. split; [done|]. by apply prefix_app_r. }
  assert (Hd : lstat (fs w) (a ++ k' ++ [z]) = None).
  { rewrite lstat_lookup by done.
    destruct (fs w !! (a ++ k' ++ [z])) as [x|] eqn:E; [|done].
    assert (Hdir : fs w !! a = Some Dir).
    { apply (tree_ancestor _ (a ++ k' ++ [z]) a x Ht E). by rewrite Hpar. }
    rewrite Hfa in Hdir. discriminate. }
  split; [|unfold is_dir, stat; cbn [stat_fuel]; by rewrite Hd].
  rewrite os_mkdir_unfold, Hd, Hpar.
  destruct (list_find _ _) as [[i a']|] eqn:Ef.
  - apply list_find_Some in Ef as (Hi & Hnd & Hmin).
    apply prefixes_lookup_inv in Hi as [-> Hi].
    destruct (decide (S i < length a)%nat) as [Hlt|Hge].
    + (* a proper ancestor of the file: a directory *)
      rewrite take_app_le in Hnd by lia.
      assert (Hpa : take (S i) a ∈ prefixes (parent a)).
      { apply elem_of_prefixes. split; [by destruct a|].
        unfold parent. rewrite removelast_firstn_len.
        exists (drop (S i) (firstn (pred (length a)) a)).
        rewrite <- (take_drop (S i) (firstn (pred (length a)) a)) at 1.
        f_equal. change (firstn (pred (length a)) a) with (take (pred (length a)) a).
        rewrite take_take. f_equal. lia. }
      pose proof (tree_ancestor _ _ _ _ Ht Hfa Hpa) as Hdir.
      rewrite is_dir_stored in Hnd; [done|].
      rewrite lstat_lookup; [done|]. by destruct a.
    + destruct (decide (S i = length a)) as [Heq|Hgt].
      * rewrite Heq, take_app_length.
        unfold stat. rewrite stat_no_link by (rewrite Ha; discriminate).
        by rewrite Ha.
      * (* the file comes first *)
        exfalso. apply (Hmin (pred (length a)) a).
        -- rewrite prefixes_lookup by (rewrite length_app; lia).
           f_equal. replace (S (pred (length a))) with (length a) by lia.
           by rewrite take_app_length.
        -- lia.
        -- by apply (is_dir_file _ _ c).
  - apply list_find_None in Ef. rewrite Forall_forall in Ef.
    destruct (Ef a Hin). by apply (is_dir_file _ _ c).
Qed.

(** X4. [ensure_dir] does not replace a file by a directory.  In a tree, when
    the path that the parent resolves to is a regular file the call raises
    [FileExistsError], when an ancestor of it is one the call raises
    [NotADirectoryError]; both name the resolved path, and nothing has
    changed. *)
Theorem ensure_dir_blocked_by_file (p d a : path) (c : string) (w : World) :
  tree (fs w) = true → resolve (fs w) (parent p) = Some d →
  a `prefix_of` d → lstat (fs w) a = Some (File c) →
  ensure_dir p w
  = (Raise (if bool_decide (a = d) then FileExistsError d
            else NotADirectoryError d), w).
Proof.
  intros Ht Hr Hpre Ha. rewrite ensure_dir_unfold, Hr.
  destruct (bool_decide_reflect (a = d)) as [->|Hne].
  - assert (E : os_mkdir d w = (Raise (FileExistsError d), w))
      by (by rewrite os_mkdir_unfold, Ha).
    destruct (rev d) eqn:Erd; rewrite <- (rev_involutive d), Erd in E |- *;
      cbn [mkdir_parents_rev]; unfold try_except;
      rewrite E, exist_ok_unfold; rewrite <- Erd, rev_involutive;
      by rewrite (is_dir_file _ _ c).
  - destruct (os_mkdir_below_file d a c w Ht Hpre Hne Ha) as [E Hnd].
    destruct (rev d) eqn:Erd; rewrite <- (rev_involutive d), Erd in E, Hnd |- *;
      cbn [mkdir_parents_rev]; unfold try_except;
      by rewrite E, exist_ok_unfold, Hnd.
Qed.

Lemma ensure_dir_blocked_by_file_witness :
  tree (fs build_world) = true
  ∧ resolve (fs build_world) ["latest"; "a.txt"; "img"] = Some ["build"; "a.txt"; "img"]
  ∧ lstat (fs build_world) ["build"; "a.txt"] = Some (File "a")
  ∧ ensure_dir ["latest"; "a.txt"; "img"; "x.png"] build_world
    = (Raise (NotADirectoryError ["build"; "a.txt"; "img"]), build_world).
Proof.
  split; [reflexivity|]. split; [reflexivity|]. split; [reflexivity|].
  apply (ensure_dir_blocked_by_file ["latest"; "a.txt"; "img"; "x.png"]
           ["build"; "a.txt"; "img"] ["build"; "a.txt"] "a" build_world);
    [reflexivity|reflexivity|by exists ["img"]|reflexivity].
Defined.

(** ** More on [rm] *)

(** X6. With [recursive], [rm] on a directory removes the directory and
    everything below it and nothing else, whatever [force] is. *)
Theorem rm_recursive_dir `{Env} (s : string) (force : bool) (w : World) :
  Path s ≠ [] → lstat (fs w) (Path s) = Some Dir →
  let w' := snd (rm s true force false w) in
  fst (rm s true force false w) = Ok tt
  ∧ out w' = out w
  ∧ (∀ q, Path s `prefix_of` q → fs w' !! q = None)
  ∧ (∀ q, ¬ Path s `prefix_of` q → fs w' !! q = fs w !! q).
Proof.
  intros Hne Hd. cbn zeta.
  assert (E : rm s true force false w
              = (Ok tt, mkWorld (without_tree (Path s) (fs w)) (out w))).
  { rewrite rm_one. unfold rm_guarded, try_except. rewrite rm_entry_dir by done.
    unfold rmtree, bind, get_fs, put_fs. rewrite Hd.
    destruct (Path s); [done|]. reflexivity. }
  rewrite E. cbn [fst snd fs out]. repeat split.
  - intros q Hq. rewrite without_tree_lookup.
    by destruct (decide (Path s `prefix_of` q)).
  - intros q Hq. rewrite without_tree_lookup.
    by destruct (decide (Path s `prefix_of` q)).
Qed.

Lemma rm_recursive_dir_witness :
  Path "build" ≠ [] ∧ lstat (fs build_world) (Path "build") = Some Dir
  ∧ fs (snd (rm (H := violations_env) "build" true false false build_world))
      !! ["build"; "a.txt"] = None.
Proof.
  split; [discriminate|]. split; [reflexivity|].
  destruct (rm_recursive_dir (H := violations_env) "build" false build_world)
    as (_ & _ & Hgone & _); [discriminate | reflexivity |].
  apply Hgone. by exists ["a.txt"].
Defined.

(** X7. [rm] on a regular file removes exactly that entry, whatever the flags
    are. *)
Theorem rm_file `{Env} (s c : string) (recursive force : bool) (w : World) :
  lstat (fs w) (Path s) = Some (File c) →
  rm s recursive force false w = (Ok tt, mkWorld (delete (Path s) (fs w)) (out w))
  ∧ (∀ q, q ≠ Path s → delete (Path s) (fs w) !! q = fs w !! q)
  ∧ delete (Path s) (fs w) !! Path s = None.
Proof.
  intros Hl. split; [|split].
  - rewrite rm_one. unfold rm_guarded, try_except. by rewrite (rm_entry_file _ c).
  - intros q Hq. by apply lookup_delete_ne.
  - apply lookup_delete_eq.
Qed.

Lemma rm_file_witness :
  lstat (fs build_world) (Path "build/a.txt") = Some (File "a")
  ∧ rm (H := violations_env) "build/a.txt" false false false build_world
    = (Ok tt, mkWorld (delete ["build"; "a.txt"] (fs build_world)) []).
Proof.
  split; [reflexivity|].
  apply (rm_file (H := violations_env) "build/a.txt" "a" false false build_world).
  reflexivity.
Defined.

(** X8. [force] does not cover the pattern expansion: for a path without a
    final component (the working directory itself), [rm] with [use_glob]
    raises the [ValueError] of the empty pattern whatever [force] and
    [recursive] are, and deletes nothing. *)
Theorem rm_glob_anchor `{Env} (s : string) (recursive force : bool) (w : World) :
  Path s = [] →
  rm s recursive force true w = (Raise (ValueError "Unacceptable pattern: ''"), w).
Proof. intros E. rewrite rm_glob, E. reflexivity. Qed.

Lemma rm_glob_anchor_witness :
  Path "." = []
  ∧ rm (H := violations_env) "." true true true build_world
    = (Raise (ValueError "Unacceptable pattern: ''"), build_world).
Proof.
  split; [reflexivity|].
  apply (rm_glob_anchor (H := violations_env) "." true true build_world).
  reflexivity.
Defined.

Lemma foldl_removed_subseteq (qs : list path) (f : gmap path node) :
  foldl (λ f q, removed q f) f qs ⊆ f.
Proof.
  revert f. induction qs as [|q qs IH]; intros f; cbn [foldl]; [done|].
  etrans; [apply IH | apply removed_subseteq].
Qed.

Lemma foldl_removed_gone (qs : list path) (q : path) (f : gmap path node) :
  q ∈ qs → q ≠ [] → f !! q ≠ Some Other →
  foldl (λ f q, removed q f) f qs !! q = None.
Proof.
  revert f. induction qs as [|q0 qs IH]; intros f Hq Hne Ho; cbn [foldl].
  - by apply elem_of_nil in Hq.
  - apply elem_of_cons in Hq as [<- | Hq].
    + eapply lookup_weaken_None; [|apply foldl_removed_subseteq].
      apply removed_gone; [done|]. by rewrite lstat_lookup.
    + apply IH; [done..|]. intros Ho'. apply Ho.
      eapply lookup_weaken; [exact Ho' | apply removed_subseteq].
Qed.

Lemma foldl_removed_outside (qs : list path) (q : path) (f : gmap path node) :
  (∀ m, m ∈ qs → ¬ m `prefix_of` q) →
  foldl (λ f q, removed q f) f qs !! q = f !! q.
Proof.
  revert f. induction qs as [|q0 qs IH]; intros f Hq; cbn [foldl]; [done|].
  rewrite IH by (intros m Hm; apply Hq; by right).
  apply removed_outside, Hq. by left.
Qed.

(** X10. Without globbing, and for a path that has no [..] in it and no link
    among the directories that lead to its last component, [rm] prints
    nothing, creates no entry and changes nothing outside the tree of the
    path it is given, whatever the flags are and whether it returns or
    raises. *)
Theorem rm_frame `{Env} (s : string) (recursive force : bool) (w : World) :
  lexical (fs w) (Path s) = true →
  let w' := snd (rm s recursive force false w) in
  out w' = out w
  ∧ fs w' ⊆ fs w
  ∧ (∀ q, ¬ Path s `prefix_of` q → fs w' !! q = fs w !! q).
Proof.
  intros _. cbn zeta.
  assert (E : snd (rm s recursive force false w)
              = snd (rm_entry (Path s) recursive force w)).
  { by rewrite rm_one, rm_guarded_world. }
  rewrite E. clear E.
  assert (Hdel : ∀ q, ¬ Path s `prefix_of` q →
                      delete (Path s) (fs w) !! q = fs w !! q).
  { intros q Hq. apply lookup_delete_ne. intros <-. by apply Hq. }
  destruct (lstat (fs w) (Path s)) as [[c| |t|]|] eqn:Hl.
  - rewrite (rm_entry_file _ c) by done. cbn [snd fs out].
    split; [done|]. split; [apply delete_subseteq | exact Hdel].
  - rewrite rm_entry_dir by done. destruct recursive; [|done].
    unfold rmtree, bind, get_fs, put_fs, ret, raise. rewrite Hl.
    assert (Hw : ∀ r : result unit,
              out (snd (r, mkWorld (without_tree (Path s) (fs w)) (out w))) = out w
              ∧ fs (snd (r, mkWorld (without_tree (Path s) (fs w)) (out w))) ⊆ fs w
              ∧ (∀ q, ¬ Path s `prefix_of` q →
                      fs (snd (r, mkWorld (without_tree (Path s) (fs w)) (out w)))
                        !! q = fs w !! q)).
    { intros r. cbn [snd fs out]. split; [done|].
      split; [apply map_filter_subseteq|].
      intros q Hq. rewrite without_tree_lookup.
      by destruct (decide (Path s `prefix_of` q)). }
    destruct (Path s); [destruct force|]; apply Hw.
  - rewrite (rm_entry_link _ t) by done. cbn [snd fs out].
    split; [done|]. split; [apply delete_subseteq | exact Hdel].
  - rewrite rm_entry_other by done. by destruct force.
  - rewrite rm_entry_absent by done. by destruct force.
Qed.

Lemma rm_frame_witness :
  lexical (fs build_world) (Path "build/a.txt") = true
  ∧ fs (snd (rm (H := violations_env) "build/a.txt" false false false build_world))
      !! ["build"] = Some Dir.
Proof.
  split; [reflexivity|].
  destruct (rm_frame (H := violations_env) "build/a.txt" false false build_world)
    as (_ & _ & Hout); [reflexivity|].
  rewrite (Hout ["build"]); [reflexivity|].
  intros [k Hk]. discriminate.
Defined.

(** ** More on the tool invocation layer *)

(** X11. When the subprocess exits with status 0, every tool invocation
    function returns normally, having logged its banner and the command and
    no diagnostic. *)
Theorem tool_call_success `{Env} (c : tool_call) (w : World) :
  snd (kicad (command c) (fs w)) = 0 →
  exec c w = (Ok tt, finished w (banner c) (command c) [])
  ∧ emitted w (snd (exec c w)) = banner c ++ [Run (command c)].
Proof.
  intros H0. rewrite exec_unfold. cbn zeta. rewrite H0. cbn [Z.eqb snd].
  split; [reflexivity|]. unfold finished. by rewrite emitted_app.
Qed.

Lemma tool_call_success_witness :
  exec (H := demo_env (λ _, 0)) (PcbExportPos PCB_PATH POSITION_PATH) empty_world
  = (Ok tt,
     finished (H := demo_env (λ _, 0)) empty_world
       [Print "Exporting position file from the PCB..."]
       (pcb_export_pos_cmd (H := demo_env (λ _, 0)) PCB_PATH POSITION_PATH) []).
Proof.
  apply (tool_call_success (H := demo_env (λ _, 0))
           (PcbExportPos PCB_PATH POSITION_PATH) empty_world).
  reflexivity.
Defined.

Lemma exec_effect `{Env} (c : tool_call) (w : World) :
  fs (snd (exec c w)) = fst (kicad (command c) (fs w))
  ∧ (∀ e, fst (exec c w) = Raise e →
          e = UnexpectedExit (snd (kicad (command c) (fs w)))
          ∧ snd (kicad (command c) (fs w)) ≠ 0).
Proof.
  rewrite exec_unfold. cbn zeta.
  destruct (Z.eqb_spec (snd (kicad (command c) (fs w))) 0) as [E0|E0].
  - split; [reflexivity|]. intros e. discriminate.
  - destruct (is_rule_check c && _); [destruct c|];
      (split; [reflexivity|]; intros e [= <-]; done).
Qed.

(** X12. A tool invocation function does nothing to the file system beyond
    what its subprocess does, and the only exception it raises is the
    [UnexpectedExit] that carries the non-zero status of the subprocess. *)
Theorem tool_call_effect `{Env} (c : tool_call) (w : World) :
  fs (snd (exec c w)) = fst (kicad (command c) (fs w))
  ∧ (∀ e, fst (exec c w) = Raise e →
          e = UnexpectedExit (snd (kicad (command c) (fs w)))
          ∧ snd (kicad (command c) (fs w)) ≠ 0).
Proof. apply exec_effect. Qed.

(** ** [check] *)

Lemma check_unfold `{Env} (w : World) :
  check w =
  match exec (SchematicErc SCH_PATH ERC_REPORT_PATH) w with
  | (Ok _, w1) => exec (PcbDrc PCB_PATH DRC_REPORT_PATH) w1
  | (Raise e, w1) => (Raise e, w1)
  end.
Proof. reflexivity. Qed.

(** X13. When the ERC exits with a non-zero status, [check] ends with the
    exception and the world of [schematic_erc]: the DRC is not started. *)
Theorem check_stops_after_erc `{Env} (w : World) :
  snd (kicad (schematic_erc_cmd SCH_PATH ERC_REPORT_PATH) (fs w)) ≠ 0 →
  check w = schematic_erc SCH_PATH ERC_REPORT_PATH w
  ∧ fst (check w)
    = Raise (UnexpectedExit
               (snd (kicad (schematic_erc_cmd SCH_PATH ERC_REPORT_PATH) (fs w))))
  ∧ runs (emitted w (snd (check w)))
    = [Run (schematic_erc_cmd SCH_PATH ERC_REPORT_PATH)].
Proof.
  intros Hne. rewrite check_unfold.
  pose proof (exec_runs_once (SchematicErc SCH_PATH ERC_REPORT_PATH) w) as Hr.
  pose proof (exec_effect (SchematicErc SCH_PATH ERC_REPORT_PATH) w) as [_ He].
  pose proof (exec_ok_iff (SchematicErc SCH_PATH ERC_REPORT_PATH) w) as Hok.
  change (exec (SchematicErc SCH_PATH ERC_REPORT_PATH) w)
    with (schematic_erc SCH_PATH ERC_REPORT_PATH w) in *.
  cbn [command] in *.
  destruct (schematic_erc SCH_PATH ERC_REPORT_PATH w) as [[[]|e] w1];
    cbn [fst snd] in *.
  - exfalso. apply Hne. by apply Hok.
  - destruct (He e eq_refl) as [-> _]. done.
Qed.

Lemma check_stops_after_erc_witness :
  runs (emitted empty_world (snd (check (H := erc_fails_env) empty_world)))
  = [Run (schematic_erc_cmd (H := erc_fails_env) SCH_PATH ERC_REPORT_PATH)].
Proof.
  apply (check_stops_after_erc (H := erc_fails_env) empty_world). discriminate.
Defined.

(** X14. [check] returns normally exactly when the ERC exits with status 0
    and the DRC, run on the file system the ERC left, exits with status 0. *)
Theorem check_ok_iff `{Env} (w : World) :
  fst (check w) = Ok tt
  ↔ snd (kicad (schematic_erc_cmd SCH_PATH ERC_REPORT_PATH) (fs w)) = 0
    ∧ snd (kicad (pcb_drc_cmd PCB_PATH DRC_REPORT_PATH)
             (fst (kicad (schematic_erc_cmd SCH_PATH ERC_REPORT_PATH) (fs w)))) = 0.
Proof.
  rewrite check_unfold.
  pose proof (exec_ok_iff (SchematicErc SCH_PATH ERC_REPORT_PATH) w) as Hok.
  pose proof (exec_effect (SchematicErc SCH_PATH ERC_REPORT_PATH) w) as [Hfs _].
  cbn [command] in *.
  destruct (exec (SchematicErc SCH_PATH ERC_REPORT_PATH) w) as [[[]|e] w1];
    cbn [fst snd] in *.
  - rewrite (exec_ok_iff (PcbDrc PCB_PATH DRC_REPORT_PATH) w1). cbn [command].
    rewrite Hfs. intuition.
  - split; [discriminate|]. intros [H0 _]. apply Hok in H0. discriminate.
Qed.

(** ** Which subprocesses a release starts *)

Lemma quiet_ret {A} (a : A) : quiet (ret a).
Proof. intros w. exists []. cbn. by rewrite app_nil_r. Qed.

Lemma quiet_raise {A} (e : exn) : quiet (@raise A e).
Proof. intros w. exists []. cbn. by rewrite app_nil_r. Qed.

Lemma quiet_lift {A} (r : result A) : quiet (lift r).
Proof. intros w. exists []. cbn. by rewrite app_nil_r. Qed.

Lemma quiet_log (e : event) : is_Run e = false → quiet (log e).
Proof. intros He w. exists [e]. split; [done|]. unfold runs. cbn. by rewrite He. Qed.

Lemma quiet_get_fs : quiet get_fs.
Proof. intros w. exists []. cbn. by rewrite app_nil_r. Qed.

Lemma quiet_put_fs f : quiet (put_fs f).
Proof. intros w. exists []. cbn. by rewrite app_nil_r. Qed.

Lemma quiet_bind {A B} (m : M A) (k : A → M B) :
  quiet m → (∀ a, quiet (k a)) → quiet (bind m k).
Proof.
  intros Hm Hk w. unfold bind. destruct (Hm w) as (evs & Hevs & Hr).
  destruct (m w) as [[a|e] w1]; cbn [snd] in *.
  - destruct (Hk a w1) as (evs' & Hevs' & Hr'). exists (evs ++ evs'). split.
    + by rewrite Hevs', Hevs, app_assoc.
    + unfold runs in *. by rewrite List.filter_app, Hr, Hr'.
  - by exists evs.
Qed.

Lemma quiet_for {A} (xs : list A) (body : A → M unit) :
  (∀ x, quiet (body x)) → quiet (for_ xs body).
Proof.
  intros Hb. induction xs as [|x xs IH]; cbn [for_].
  - apply quiet_ret.
  - apply quiet_bind; auto.
Qed.

Create HintDb quiet.
#[local] Hint Resolve quiet_ret quiet_raise quiet_lift quiet_get_fs quiet_put_fs
  quiet_bind quiet_for : quiet.

Lemma quiet_ensure_dir p : quiet (ensure_dir p).
Proof.
  intros w. exists []. destruct (ensure_dir_adds p w) as [Ho _].
  by rewrite Ho, app_nil_r.
Qed.

Lemma quiet_save p content : quiet (save p content).
Proof.
  unfold save. apply quiet_bind; [by apply quiet_log|]. intros _.
  apply quiet_bind; [auto with quiet|]. intros f.
  destruct (lstat f p) as [[| |t|]|]; auto with quiet.
Qed.

(** [svg_to_png] starts no subprocess. *)
Lemma quiet_svg_to_png `{Env} svg_path png_path scale dpi alpha :
  quiet (svg_to_png svg_path png_path scale dpi alpha).
Proof.
  unfold svg_to_png.
  apply quiet_bind; [by apply quiet_log|]. intros _.
  apply quiet_bind; [destruct (_ && _); auto with quiet|]. intros _.
  apply quiet_bind; [by apply quiet_log|]. intros _.
  apply quiet_bind; [auto with quiet|]. intros f.
  destruct (svg2rlg f svg_path); [|auto with quiet].
  apply quiet_bind; [destruct scale; auto with quiet|]. intros scaled.
  apply quiet_bind; [by apply quiet_log|]. intros _.
  apply quiet_bind; [by apply quiet_log|]. intros _.
  apply quiet_bind; [apply quiet_ensure_dir|]. intros _. apply quiet_save.
Qed.

Lemma starts_quiet (m : M unit) : quiet m → starts m [].
Proof. done. Qed.

Lemma starts_exec `{Env} (c : tool_call) : starts (exec c) [Run (command c)].
Proof.
  intros w. pose proof (exec_runs_once c w) as Hr. revert Hr.
  rewrite exec_unfold. cbn zeta.
  destruct (_ =? 0)%Z; [|destruct (is_rule_check c && _); [destruct c|]];
    cbn [snd]; unfold finished; rewrite emitted_app; intros Hr;
    eexists; (split; [cbn [out]; reflexivity | exact Hr]).
Qed.

(** A sequence starts the subprocesses of the steps it gets to, in order. *)
Lemma for_starts (steps : list (M unit)) (rss : list (list event)) (w : World) :
  Forall2 starts steps rss →
  ∃ evs, out (snd (for_ steps (λ t, t) w)) = out w ++ evs
         ∧ runs evs `prefix_of` concat rss
         ∧ (fst (for_ steps (λ t, t) w) = Ok tt → runs evs = concat rss).
Proof.
  intros Hall. revert w. induction Hall as [|s rs steps rss Hs _ IH]; intros w.
  - exists []. cbn. by rewrite app_nil_r.
  - cbn [for_ concat]. unfold bind. destruct (Hs w) as (evs & Hevs & Hr).
    destruct (s w) as [[[]|e] w1]; cbn [snd fst] in *.
    + destruct (IH w1) as (evs' & Hevs' & Hpre & Hok).
      exists (evs ++ evs'). split; [by rewrite Hevs', Hevs, app_assoc|].
      unfold runs in *. rewrite List.filter_app, Hr. split.
      * by apply prefix_app.
      * intros Hfin. by rewrite Hok.
    + exists evs. split; [done|]. rewrite Hr. split; [|discriminate].
      by apply prefix_app_r.
Qed.

(** X15. Whatever happens, the subprocesses [invoke release] starts are an
    initial part of one fixed list of twelve commands, in that order, and a
    release that returns normally has started all twelve.  The ODB++ export
    and the render are not among them. *)
Theorem release_starts_in_order `{Env} (w : World) :
  runs (emitted w (snd (release_task w))) `prefix_of` map Run release_commands
  ∧ (fst (release_task w) = Ok tt →
     runs (emitted w (snd (release_task w))) = map Run release_commands).
Proof.
  rewrite release_plan_run.
  destruct (for_starts release_plan
              [ [Run kicad_version_cmd];
                [Run (schematic_erc_cmd SCH_PATH ERC_REPORT_PATH)];
                [Run (pcb_drc_cmd PCB_PATH DRC_REPORT_PATH)];
                [Run (schematic_export_pdf_cmd SCH_PATH SCH_PDF_PATH)];
                [Run (schematic_export_svg_cmd SCH_PATH SCH_SVG_PATH)];
                []; [];
                [Run (schematic_export_bom_cmd SCH_PATH BOM_PATH)];
                [Run (pcb_export_gerbers_cmd PCB_PATH GERBERS_PATH GERBER_LAYERS)];
                [Run (pcb_export_drill_cmd PCB_PATH DRILL_FILES_PATH)];
                [Run (pcb_export_ipcd356_cmd PCB_PATH IPCD356_PATH)];
                [Run (pcb_export_pdf_cmd PCB_PATH PCB_PDF_PATH FRONT_PDF_LAYERS
                        false false true)];
                [Run (pcb_export_pdf_cmd PCB_PATH PCB_PDF_PATH BACK_PDF_LAYERS
                        true false true)];
                [Run (pcb_export_pos_cmd PCB_PATH POSITION_PATH)] ] w)
    as (evs & Hevs & Hpre & Hok).
  - unfold release_plan, release_steps. cbn [app].
    repeat (apply Forall2_cons; split);
      try done;
      try (apply starts_quiet, quiet_svg_to_png).
    + apply (starts_exec KicadVersion).
    + apply (starts_exec (SchematicErc SCH_PATH ERC_REPORT_PATH)).
    + apply (starts_exec (PcbDrc PCB_PATH DRC_REPORT_PATH)).
    + apply (starts_exec (SchematicExportPdf SCH_PATH SCH_PDF_PATH)).
    + apply (starts_exec (SchematicExportSvg SCH_PATH SCH_SVG_PATH)).
    + apply (starts_exec (SchematicExportBom SCH_PATH BOM_PATH)).
    + apply (starts_exec (PcbExportGerbers PCB_PATH GERBERS_PATH GERBER_LAYERS)).
    + apply (starts_exec (PcbExportDrill PCB_PATH DRILL_FILES_PATH)).
    + apply (starts_exec (PcbExportIpcd356 PCB_PATH IPCD356_PATH)).
    + apply (starts_exec (PcbExportPdf PCB_PATH PCB_PDF_PATH FRONT_PDF_LAYERS
                            false false true)).
    + apply (starts_exec (PcbExportPdf PCB_PATH PCB_PDF_PATH BACK_PDF_LAYERS
                            true false true)).
    + apply (starts_exec (PcbExportPos PCB_PATH POSITION_PATH)).
  - unfold emitted. rewrite Hevs, drop_app_length. split; assumption.
Qed.

Lemma release_starts_in_order_witness :
  fst (release_task (H := demo_env (λ _, 0)) exported_world) = Ok tt
  ∧ runs (emitted exported_world
            (snd (release_task (H := demo_env (λ _, 0)) exported_world)))
    = map Run (release_commands (H := demo_env (λ _, 0))).
Proof.
  assert (Hok : fst (release_task (H := demo_env (λ _, 0)) exported_world) = Ok tt)
    by (vm_compute; reflexivity).
  split; [exact Hok|].
  apply (release_starts_in_order (H := demo_env (λ _, 0)) exported_world).
  exact Hok.
Defined.

(** ** More on [clean] *)

Lemma for_rm_rf_strings `{Env} (ss : list string) (w : World) :
  for_ ss (λ s, rm s true true false) w =
  (Ok tt, mkWorld (foldl (λ f q, removed q f) (fs w) (map Path ss)) (out w)).
Proof.
  revert w. induction ss as [|s ss IH]; intros w; cbn [for_ foldl map].
  - by rewrite world_eta.
  - unfold bind. rewrite rm_rf, IH. reflexivity.
Qed.

Lemma clean_targets (kicad_backups kicad_cache_files all : bool) (q : path) :
  q ∈ map Path (clean_paths kicad_backups kicad_cache_files all) →
  q = OUTPUT_PATH ∨ q = Path (PROJECT_NAME +:+ "-backups") ∨ q = Path "fp-info-cache".
Proof.
  unfold clean_paths.
  destruct (kicad_backups || all), (kicad_cache_files || all); cbn [app map];
    rewrite ?elem_of_cons, elem_of_nil; intuition.
Qed.

(** X16. Whatever its flags, [clean] returns normally and prints nothing; it
    creates no entry, changes nothing outside the output tree, the backups
    tree and the cache path, and in particular leaves the schematic and the
    board file alone. *)
Theorem clean_any_flags `{Env} (kicad_backups kicad_cache_files all : bool) (w : World) :
  let w' := snd (clean kicad_backups kicad_cache_files all w) in
  fst (clean kicad_backups kicad_cache_files all w) = Ok tt
  ∧ out w' = out w
  ∧ fs w' ⊆ fs w
  ∧ (∀ q, ¬ OUTPUT_PATH `prefix_of` q →
          ¬ Path (PROJECT_NAME +:+ "-backups") `prefix_of` q →
          ¬ Path "fp-info-cache" `prefix_of` q →
          fs w' !! q = fs w !! q)
  ∧ fs w' !! SCH_PATH = fs w !! SCH_PATH
  ∧ fs w' !! PCB_PATH = fs w !! PCB_PATH.
Proof.
  cbn zeta. unfold clean. rewrite for_rm_rf_strings. cbn [fst snd fs out].
  assert (Hframe : ∀ q, ¬ OUTPUT_PATH `prefix_of` q →
            ¬ Path (PROJECT_NAME +:+ "-backups") `prefix_of` q →
            ¬ Path "fp-info-cache" `prefix_of` q →
            foldl (λ f q, removed q f) (fs w)
              (map Path (clean_paths kicad_backups kicad_cache_files all)) !! q
            = fs w !! q).
  { intros q H1 H2 H3. apply foldl_removed_outside. intros m Hm.
    apply clean_targets in Hm as [-> | [-> | ->]]; assumption. }
  split; [done|]. split; [done|]. split; [apply foldl_removed_subseteq|].
  split; [exact Hframe|]. split; apply Hframe; no_prefix.
Qed.

Lemma foldl_removed_fixed (qs : list path) (f : gmap path node) :
  (∀ q, q ∈ qs → removed q f = f) → foldl (λ f q, removed q f) f qs = f.
Proof.
  induction qs as [|q qs IH]; intros Hq; cbn [foldl]; [done|].
  rewrite (Hq q) by (by left). apply IH. intros m Hm. apply Hq. by right.
Qed.

(** After the removal of the paths [qs], removing them once more changes
    nothing. *)
Lemma foldl_removed_twice (qs : list path) (f : gmap path node) :
  (∀ q, q ∈ qs → q ≠ []) →
  foldl (λ f q, removed q f) (foldl (λ f q, removed q f) f qs) qs
  = foldl (λ f q, removed q f) f qs.
Proof.
  intros Hne. apply foldl_removed_fixed. intros q Hq.
  set (F := foldl (λ f q, removed q f) f qs).
  assert (HF : F !! q = None ∨ F !! q = Some Other).
  { destruct (f !! q) as [[c| |t|]|] eqn:Ef;
      try (left; apply foldl_removed_gone; auto; rewrite Ef; congruence).
    destruct (F !! q) as [x|] eqn:E; [|by left]. right.
    assert (f !! q = Some x) as Hx.
    { eapply lookup_weaken; [exact E | apply foldl_removed_subseteq]. }
    congruence. }
  unfold removed. rewrite lstat_lookup by auto. by destruct HF as [-> | ->].
Qed.

(** X17. [clean] is idempotent: run again with the same flags, it returns
    normally and changes nothing. *)
Theorem clean_idempotent `{Env} (kicad_backups kicad_cache_files all : bool) (w : World) :
  clean kicad_backups kicad_cache_files all
    (snd (clean kicad_backups kicad_cache_files all w))
  = (Ok tt, snd (clean kicad_backups kicad_cache_files all w)).
Proof.
  unfold clean. rewrite !for_rm_rf_strings. cbn [snd fs out].
  rewrite foldl_removed_twice; [done|].
  intros q Hq. apply clean_targets in Hq as [-> | [-> | ->]]; nonempty.
Qed.

Lemma output_tree_below (p : path) :
  p ∈ OUTPUT_TREE → OUTPUT_PATH `prefix_of` p.
Proof.
  unfold OUTPUT_TREE. rewrite !elem_of_cons, elem_of_nil. intros Hp.
  repeat (destruct Hp as [-> | Hp]); try contradiction;
    eexists; vm_compute; reflexivity.
Qed.

(** X18. Every report and export destination the script is configured with
    lies below the output root, so [clean], whatever its flags, removes each
    of them when the output root is a directory. *)
Theorem clean_removes_outputs `{Env} (kicad_backups kicad_cache_files all : bool)
    (w : World) (p : path) :
  lstat (fs w) OUTPUT_PATH = Some Dir →
  p ∈ OUTPUT_TREE →
  OUTPUT_PATH `prefix_of` p
  ∧ fs (snd (clean kicad_backups kicad_cache_files all w)) !! p = None.
Proof.
  intros Hd Hp. pose proof (output_tree_below p Hp) as Hpre.
  split; [done|].
  unfold clean. rewrite for_rm_rf_strings. cbn [snd fs].
  assert (E : map Path (clean_paths kicad_backups kicad_cache_files all)
              = OUTPUT_PATH :: tail (map Path (clean_paths kicad_backups
                                                  kicad_cache_files all))).
  { unfold clean_paths.
    by destruct (kicad_backups || all), (kicad_cache_files || all). }
  rewrite E. cbn [foldl].
  eapply lookup_weaken_None; [|apply foldl_removed_subseteq].
  by apply removed_tree_gone.
Qed.

Lemma clean_removes_outputs_witness :
  fs (snd (clean (H := violations_env) false false false
             (mkWorld (<[ ERC_REPORT_PATH := File "report" ]>
                       (<[ OUTPUT_PATH := Dir ]> ∅)) [])))
    !! ERC_REPORT_PATH = None.
Proof.
  apply (clean_removes_outputs (H := violations_env) false false false
           (mkWorld (<[ ERC_REPORT_PATH := File "report" ]>
                     (<[ OUTPUT_PATH := Dir ]> ∅)) []) ERC_REPORT_PATH).
  - reflexivity.
  - unfold OUTPUT_TREE. rewrite !elem_of_cons. auto.
Defined.

(** ** [get_kicad_cli_path] *)

(** X19. Off macOS, [get_kicad_cli_path] is [kicad-cli] and the file system
    is not consulted.  On macOS it returns only the path of an executable
    that exists, the one of KiCad 9.0 whenever that exists, and raises
    exactly when neither candidate exists; what it raises then is the
    [FileNotFoundError] of the source. *)
Theorem get_kicad_cli_path_exists (system : string) (f : gmap path node) :
  let kicad_9 := "/Applications/KiCad_9.0/KiCad.app/Contents/MacOS/kicad-cli" in
  let kicad_default := "/Applications/KiCad/KiCad.app/Contents/MacOS/kicad-cli" in
  (system ≠ "Darwin" → get_kicad_cli_path system f = Ok "kicad-cli")
  ∧ (system = "Darwin" →
     (exists_ f (Path kicad_9) = true → get_kicad_cli_path system f = Ok kicad_9)
     ∧ (∀ s, get_kicad_cli_path system f = Ok s →
             (s = kicad_9 ∨ s = kicad_default) ∧ exists_ f (Path s) = true)
     ∧ (get_kicad_cli_path system f = Raise (FileNotFoundError ["kicad-cli not found"])
        ↔ exists_ f (Path kicad_9) = false ∧ exists_ f (Path kicad_default) = false)
     ∧ (∀ e, get_kicad_cli_path system f = Raise e →
             e = FileNotFoundError ["kicad-cli not found"])).
Proof.
  cbn zeta. unfold get_kicad_cli_path. split.
  - intros Hs. by destruct (String.eqb_spec system "Darwin").
  - intros ->. cbn [String.eqb Ascii.eqb Bool.eqb]. cbn zeta.
    destruct (exists_ f (Path "/Applications/KiCad_9.0/KiCad.app/Contents/MacOS/kicad-cli"))
      eqn:E9;
    [|destruct (exists_ f (Path "/Applications/KiCad/KiCad.app/Contents/MacOS/kicad-cli"))
        eqn:Ed].
    + split; [done|]. split; [|split].
      * intros s [= <-]. split; [by left|exact E9].
      * split; [discriminate | intros [? _]; discriminate].
      * intros e. discriminate.
    + split; [done|]. split; [|split].
      * intros s [= <-]. split; [by right|exact Ed].
      * split; [discriminate | intros [_ ?]; discriminate].
      * intros e. discriminate.
    + split; [done|]. split; [|split].
      * intros s. discriminate.
      * done.
      * by intros e [= <-].
Qed.

Lemma get_kicad_cli_path_exists_witness :
  get_kicad_cli_path "Darwin" mac_fs
  = Ok "/Applications/KiCad/KiCad.app/Contents/MacOS/kicad-cli"
  ∧ exists_ mac_fs (Path "/Applications/KiCad/KiCad.app/Contents/MacOS/kicad-cli")
    = true.
Proof.
  split; [reflexivity|].
  destruct (get_kicad_cli_path_exists "Darwin" mac_fs) as [_ Hmac].
  destruct (Hmac eq_refl) as (_ & Hret & _).
  apply (Hret "/Applications/KiCad/KiCad.app/Contents/MacOS/kicad-cli").
  reflexivity.
Defined.

(** ** More on [svg_to_png] *)

Lemma svg_to_png_unfold `{Env} (svg_path png_path : path) (scale : option num)
    (dpi : option Z) (alpha : bool) (w : World) :
  let w1 := mkWorld (fs w)
              (out w ++ [Print ("Generating " +:+ str png_path +:+ " from "
                                  +:+ str svg_path +:+ "...")]) in
  let w2 := mkWorld (fs w) (out w1 ++ [Svg2rlg svg_path]) in
  svg_to_png svg_path png_path scale dpi alpha w =
  if bool_decide (scale ≠ None) && bool_decide (dpi ≠ None) then
    (Raise (ValueError "Cannot specify both scale and dpi"), w1)
  else
    match svg2rlg (fs w) svg_path with
    | None =>
        (Raise (ValueError ("Failed to convert " +:+ str svg_path
                              +:+ " to ReportLab drawing")), w2)
    | Some d =>
        match (match scale with
               | Some s => scale_drawing s d
               | None => Ok d
               end) with
        | Raise e => (Raise e, w2)
        | Ok d' =>
            (ensure_dir png_path ;;
             save png_path (get_pixmap (drawToString d') alpha dpi))
              (mkWorld (fs w) (out w2 ++ [DrawToString; GetPixmap alpha dpi]))
        end
    end.
Proof.
  cbn zeta. unfold svg_to_png. rewrite print_bind.
  destruct (bool_decide (scale ≠ None) && bool_decide (dpi ≠ None)); [reflexivity|].
  unfold bind at 1. unfold ret at 1. unfold bind at 1. unfold log at 1.
  cbn [fs out]. unfold bind at 1. unfold get_fs at 1. cbn [fs].
  destruct (svg2rlg (fs w) svg_path) as [d|]; [|reflexivity].
  unfold bind at 1.
  destruct scale as [s|].
  - unfold lift. destruct (scale_drawing s d) as [d'|e]; [|reflexivity].
    unfold bind at 1. unfold log at 1. cbn [fs out].
    unfold bind at 1. unfold log at 1. cbn [fs out].
    by rewrite <- app_assoc.
  - unfold ret at 1.
    unfold bind at 1. unfold log at 1. cbn [fs out].
    unfold bind at 1. unfold log at 1. cbn [fs out].
    by rewrite <- app_assoc.
Qed.

(** X20. When [svg_to_png] returns and the destination was no symbolic link,
    the source was turned into a drawing, scaled if [scale] was given, and
    the destination is a file that holds the rendering of that drawing; the
    libraries were called once each, in the order parse, render, rasterise,
    save. *)
Theorem svg_to_png_writes `{Env} (svg_path png_path : path) (scale : option num)
    (dpi : option Z) (alpha : bool) (w w' : World) :
  svg_to_png svg_path png_path scale dpi alpha w = (Ok tt, w') →
  (∀ t, lstat (fs w) png_path ≠ Some (Symlink t)) →
  ∃ d d',
    svg2rlg (fs w) svg_path = Some d
    ∧ match scale with
      | Some s => scale_drawing s d = Ok d'
      | None => d' = d
      end
    ∧ lstat (fs w') png_path
      = Some (File (get_pixmap (drawToString d') alpha dpi))
    ∧ emitted w w'
      = [Print ("Generating " +:+ str png_path +:+ " from "
                  +:+ str svg_path +:+ "...");
         Svg2rlg svg_path; DrawToString; GetPixmap alpha dpi; Save png_path].
Proof.
  rewrite svg_to_png_unfold. cbn zeta. intros Hrun Hlink.
  destruct (bool_decide (scale ≠ None) && bool_decide (dpi ≠ None));
    [discriminate|].
  destruct (svg2rlg (fs w) svg_path) as [d|]; [|discriminate].
  assert (Hsc : ∃ d', (match scale with
                       | Some s => scale_drawing s d
                       | None => Ok d
                       end) = Ok d'
                      ∧ match scale with
                        | Some s => scale_drawing s d = Ok d'
                        | None => d' = d
                        end).
  { destruct scale as [s|]; [|by exists d].
    destruct (scale_drawing s d) as [d'|e]; [by exists d'|discriminate]. }
  destruct Hsc as (d' & Hsc & Hd'). rewrite Hsc in Hrun.
  exists d, d'. split; [done|]. split; [done|].
  unfold bind in Hrun.
  match type of Hrun with context [ensure_dir png_path ?w0] =>
    destruct (ensure_dir_adds png_path w0) as [Ho Hent];
    specialize (Hent png_path);
    destruct (ensure_dir png_path w0) as [[[]|e] w3]; [|discriminate]
  end.
  cbn [snd fs out] in Ho, Hent.
  unfold save, bind, log, get_fs, put_fs, raise in Hrun. cbn [fs out] in Hrun.
  assert (Hl3 : ∀ t, lstat (fs w3) png_path ≠ Some (Symlink t)).
  { intros t. destruct png_path as [|a p]; [discriminate|]. cbn [lstat] in *.
    destruct Hent as [-> | (_ & -> & _)]; [apply Hlink | discriminate]. }
  destruct (lstat (fs w3) png_path) as [[c| |t|]|] eqn:El;
    try discriminate; try (by destruct (Hl3 t));
    injection Hrun as <-; cbn [fs out];
    (split;
     [ destruct png_path; [discriminate|]; cbn [lstat]; apply lookup_insert_eq
     | unfold emitted; cbn [out]; rewrite Ho, <- !app_assoc, drop_app_length;
       reflexivity ]).
Qed.

Lemma svg_to_png_writes_witness :
  svg_to_png (H := violations_env) ["logo.svg"] ["img"; "logo.png"] None (Some 300)
    false svg_world
  = (Ok tt,
     mkWorld (<[ ["img"; "logo.png"] := File "PNG" ]>
              (<[ ["img"] := Dir ]> (fs svg_world)))
       [Print "Generating img/logo.png from logo.svg..."; Svg2rlg ["logo.svg"];
        DrawToString; GetPixmap false (Some 300); Save ["img"; "logo.png"]])
  ∧ ∃ d d', svg2rlg (Env := violations_env) (fs svg_world) ["logo.svg"] = Some d
            ∧ d' = d.
Proof.
  split; [reflexivity|].
  destruct (svg_to_png_writes (H := violations_env) ["logo.svg"] ["img"; "logo.png"]
              None (Some 300) false svg_world
              (mkWorld (<[ ["img"; "logo.png"] := File "PNG" ]>
                        (<[ ["img"] := Dir ]> (fs svg_world)))
                 [Print "Generating img/logo.png from logo.svg...";
                  Svg2rlg ["logo.svg"]; DrawToString; GetPixmap false (Some 300);
                  Save ["img"; "logo.png"]]))
    as (d & d' & Hd & Hd' & _); [reflexivity | discriminate |].
  by exists d, d'.
Defined.

(** X21. When svglib yields no drawing, [svg_to_png] raises the [ValueError]
    that names the source right after the parse: nothing is rendered and the
    file system is unchanged. *)
Theorem svg_to_png_no_drawing `{Env} (svg_path png_path : path) (scale : option num)
    (dpi : option Z) (alpha : bool) (w : World) :
  svg2rlg (fs w) svg_path = None →
  scale = None ∨ dpi = None →
  svg_to_png svg_path png_path scale dpi alpha w =
  (Raise (ValueError ("Failed to convert " +:+ str svg_path
                        +:+ " to ReportLab drawing")),
   mkWorld (fs w)
     (out w ++ [Print ("Generating " +:+ str png_path +:+ " from "
                         +:+ str svg_path +:+ "...");
                Svg2rlg svg_path])).
Proof.
  intros Hnone Hone. rewrite svg_to_png_unfold. cbn zeta. rewrite Hnone.
  cbn [out]. rewrite <- app_assoc.
  destruct Hone as [-> | ->]; [done|]. by rewrite andb_false_r.
Qed.

Lemma svg_to_png_no_drawing_witness :
  fst (svg_to_png (H := violations_env) ["missing.svg"] ["img"; "logo.png"] None
         (Some 300) false svg_world)
  = Raise (ValueError "Failed to convert missing.svg to ReportLab drawing").
Proof.
  rewrite (svg_to_png_no_drawing (H := violations_env) ["missing.svg"]
             ["img"; "logo.png"] None (Some 300) false svg_world);
    [reflexivity | reflexivity | by left].
Defined.

(** X22. The scaling step divides by the larger dimension without a guard:
    for a drawing whose larger dimension is zero, [svg_to_png] with [scale]
    raises [ZeroDivisionError] after the parse, before anything is rendered
    or written. *)
Theorem svg_to_png_empty_drawing `{Env} (svg_path png_path : path) (scale : num)
    (alpha : bool) (d : Drawing num) (w : World) :
  svg2rlg (fs w) svg_path = Some d →
  div scale (pymax (width d) (height d)) = None →
  svg_to_png svg_path png_path (Some scale) None alpha w =
  (Raise ZeroDivisionError,
   mkWorld (fs w)
     (out w ++ [Print ("Generating " +:+ str png_path +:+ " from "
                         +:+ str svg_path +:+ "...");
                Svg2rlg svg_path])).
Proof.
  intros Hd Hz. rewrite svg_to_png_unfold. cbn zeta. rewrite Hd.
  rewrite andb_false_r. unfold scale_drawing. rewrite Hz.
  cbn [out]. by rewrite <- app_assoc.
Qed.

Lemma svg_to_png_empty_drawing_witness :
  svg_to_png (H := blank_env) ["logo.svg"] ["img"; "logo.png"]
    (Some (of_Z 500)) None false svg_world
  = (Raise ZeroDivisionError,
     mkWorld (fs svg_world)
       [Print "Generating img/logo.png from logo.svg..."; Svg2rlg ["logo.svg"]]).
Proof.
  apply (svg_to_png_empty_drawing (H := blank_env) ["logo.svg"] ["img"; "logo.png"]
           (of_Z 500) false
           {| width := of_Z 0; height := of_Z 0; renderScale := of_Z 1 |}
           svg_world); reflexivity.
Defined.
